(** * SATOSA attribute mapping: a shallow embedding of
      [src/satosa/attribute_mapping.py] and the properties of its
      translation operations.

    Python values are an inductive type, dictionaries are association lists
    in insertion order (the order in which Python iterates them), exceptions
    are carried by an error monad, and the one mutable lookup table of the
    mapper (a [defaultdict]) is threaded explicitly. *)

From Stdlib Require Import String Ascii ZArith.
From stdpp Require Import base option list gmap strings.

Local Open Scope string_scope.
Local Open Scope list_scope.

(** ** Python strings: the three [str] operations the module uses, all with a
    one-character argument (["@"], ["."], [";"], ["$"]). *)

Module PyStr.

(** [c in s] *)
Fixpoint contains (c : ascii) (s : string) : bool :=
  match s with
  | EmptyString => false
  | String a s' => if Ascii.eqb a c then true else contains c s'
  end.

(** [s.partition(sep)]: head, separator, tail around the first [sep]; the
    whole string and two empty strings when [sep] does not occur. *)
Fixpoint partition (sep : ascii) (s : string) : string * string * string :=
  match s with
  | EmptyString => (EmptyString, EmptyString, EmptyString)
  | String a s' =>
      if Ascii.eqb a sep then (EmptyString, String sep EmptyString, s')
      else let '(h, m, t) := partition sep s' in (String a h, m, t)
  end.

(** [s.split(sep)]: the pieces between the occurrences of [sep]; never
    empty, [[""]] for the empty string. *)
Fixpoint split (sep : ascii) (s : string) : list string :=
  match s with
  | EmptyString => [EmptyString]
  | String a s' =>
      if Ascii.eqb a sep then EmptyString :: split sep s'
      else match split sep s' with
           | h :: t => String a h :: t
           | [] => [String a EmptyString]
           end
  end.

(** [sep.join(pieces)] is not called by the module; it states what [split]
    inverts. *)
Fixpoint join (sep : ascii) (pieces : list string) : string :=
  match pieces with
  | [] => EmptyString
  | [p] => p
  | p :: ps => p +:+ String sep (join sep ps)
  end.

(** The string has an occurrence of [c]. *)
Definition occurs (c : ascii) (s : string) : Prop :=
  ∃ pre post, s = pre +:+ String c post.

End PyStr.

(** ** Exceptions and the error monad *)

(** The exception classes the module can meet.  A class stands for itself
    and its subclasses (an [except NameError] clause also catches them);
    [OtherException] is any class unrelated to the named ones, such as the
    template engine's own errors. *)
Inductive exn : Type :=
| AttributeError
| IndexError
| KeyError
| NameError
| RecursionError
| TypeError
| ValueError
| OtherException (name : string).

Inductive result (A : Type) : Type :=
| Ok (a : A)
| Raise (e : exn).
Arguments Ok {A} a.
Arguments Raise {A} e.

#[export] Instance result_ret : MRet result := fun _ a => Ok a.
#[export] Instance result_bind : MBind result := fun _ _ f m =>
  match m with
  | Ok a => f a
  | Raise e => Raise e
  end.

#[export] Instance result_fmap : FMap result := fun _ _ f m =>
  match m with
  | Ok a => Ok (f a)
  | Raise e => Raise e
  end.

Definition raises {A} (m : result A) : Prop := ∃ e, m = Raise e.

(** ** [scope] *)

Definition scope (s : string) : result string :=
  if negb (PyStr.contains "@" s) then Raise ValueError
  else let '(local_part, _, domain_part) := PyStr.partition "@" s in
       Ok domain_part.

(** ** Python values

    The values an attribute record can hold: [None], booleans, integers,
    strings, lists and string-keyed dictionaries. *)

#[warnings="-register-all"]
Inductive pyval : Type :=
| PNone
| PBool (b : bool)
| PInt (n : Z)
| PStr (s : string)
| PList (l : list pyval)
| PDict (d : list (string * pyval)).

(** Truth value of a Python object, as tested by [if x:] and [x or y]. *)
Definition truthy (v : pyval) : bool :=
  match v with
  | PNone => false
  | PBool b => b
  | PInt n => negb (Z.eqb n 0)
  | PStr s => negb (String.eqb s EmptyString)
  | PList l => match l with [] => false | _ => true end
  | PDict d => match d with [] => false | _ => true end
  end.

(** [a or b] *)
Definition py_or (a b : pyval) : pyval := if truthy a then a else b.

(** ** Dictionaries: association lists in insertion order *)

Module Dict.

(** [d.get(k)] / [k in d] / [d[k]] on a present key *)
Fixpoint get {V} (k : string) (d : list (string * V)) : option V :=
  match d with
  | [] => None
  | (k', v) :: d' => if String.eqb k' k then Some v else get k d'
  end.

(** [d[k] = v]: overwrite in place, or append a new entry at the end *)
Fixpoint set {V} (k : string) (v : V) (d : list (string * V)) : list (string * V) :=
  match d with
  | [] => [(k, v)]
  | (k', v') :: d' => if String.eqb k' k then (k', v) :: d' else (k', v') :: set k v d'
  end.

Definition keys {V} (d : list (string * V)) : list string := d.*1.

(** The keys of a dictionary are pairwise distinct. *)
Definition wf {V} (d : list (string * V)) : Prop := NoDup (keys d).

End Dict.

Abbreviation pydict := (list (string * pyval)).

(** [d.get(key)] on an arbitrary object: only dictionaries have the method. *)
Definition py_get (d : pyval) (key : string) : result pyval :=
  match d with
  | PDict m => Ok (default PNone (Dict.get key m))
  | _ => Raise AttributeError
  end.

(** ** The template engine

    [mako.template.Template] is an external library.  The mapper only
    constructs a template from a string and renders it against keyword
    arguments; both steps can raise. *)

Class Mako : Type := {
  mako_template : Type;
  Template : string → result mako_template;
  render : mako_template → pydict → result pyval
}.

(** ** Configuration and the mapper object *)

(** profile name -> ordered external attribute names *)
Abbreviation profile_map := (list (string * list string)).
(** internal attribute name -> profile map *)
Abbreviation attr_map := (list (string * profile_map)).

(** The constructor argument: a dictionary with keys ["attributes"] and,
    optionally, ["template_attributes"]. *)
Record internal_attributes_arg : Type := {
  arg_attributes : option attr_map;
  arg_template_attributes : option attr_map
}.

Record AttributeMapper : Type := {
  separator : ascii;
  multivalue_separator : ascii;
  from_internal_attributes : attr_map;
  template_attributes : option attr_map;
  (** a [defaultdict(dict)]: profile -> external name -> internal name *)
  to_internal_attributes : gmap string (gmap string string)
}.

(** [table[profile][external] = internal] on the [defaultdict]: a missing
    profile is first given an empty dictionary. *)
Definition table_store (profile external internal : string)
    (table : gmap string (gmap string string)) : gmap string (gmap string string) :=
  <[profile := <[external := internal]> (default ∅ (table !! profile))]> table.

(** [table[profile]] on the [defaultdict]: a missing key is not a
    [KeyError]; the default factory's empty dictionary is inserted under it
    and returned. *)
Definition defaultdict_getitem (profile : string)
    (table : gmap string (gmap string string))
  : result (gmap string string) * gmap string (gmap string string) :=
  match table !! profile with
  | Some m => (Ok m, table)
  | None => (Ok ∅, <[profile := ∅]> table)
  end.

(** The three nested loops of [__init__]. *)
Definition init_names (internal profile : string) (names : list string)
    (table : gmap string (gmap string string)) : gmap string (gmap string string) :=
  fold_left (fun t external => table_store profile external internal t) names table.

Definition init_profiles (internal : string) (mappings : profile_map)
    (table : gmap string (gmap string string)) : gmap string (gmap string string) :=
  fold_left (fun t '(profile, names) => init_names internal profile names t) mappings table.

Definition init_table (attrs : attr_map) : gmap string (gmap string string) :=
  fold_left (fun t '(internal, mappings) => init_profiles internal mappings t) attrs ∅.

(** The object [__init__] builds from the two sections of its argument. *)
Definition mapper (attrs : attr_map) (tattrs : option attr_map) : AttributeMapper :=
  {| separator := ".";
     multivalue_separator := ";";
     from_internal_attributes := attrs;
     template_attributes := tattrs;
     to_internal_attributes := init_table attrs |}.

(** [AttributeMapper.__init__]; [internal_attributes["attributes"]] raises
    [KeyError] when the section is missing. *)
Definition init (internal_attributes : internal_attributes_arg) : result AttributeMapper :=
  match arg_attributes internal_attributes with
  | None => Raise KeyError
  | Some attrs => Ok (mapper attrs (arg_template_attributes internal_attributes))
  end.

Definition with_table (self : AttributeMapper)
    (table : gmap string (gmap string string)) : AttributeMapper :=
  {| separator := separator self;
     multivalue_separator := multivalue_separator self;
     from_internal_attributes := from_internal_attributes self;
     template_attributes := template_attributes self;
     to_internal_attributes := table |}.

(** ** [to_internal_filter]

    Returns the list and the mapper after the call. *)

(** The loop that fills the set of internal names.  [list(set)] returns the
    members in an order that depends on the hashes and on the insertions;
    [elements] is one such order, so what is proved of the returned list
    carries over to the code for membership, absence of duplicates and
    length, not for the positions of the members. *)
Definition filter_names (profile_mapping : gmap string string)
    (external_attribute_names : list string) : gset string :=
  fold_left (fun names external =>
               match profile_mapping !! external with
               | Some internal => names ∪ {[internal]}
               | None => names
               end) external_attribute_names ∅.

Definition to_internal_filter (self : AttributeMapper) (attribute_profile : string)
    (external_attribute_names : list string) : result (list string) * AttributeMapper :=
  let '(r, table) := defaultdict_getitem attribute_profile (to_internal_attributes self) in
  match r with
  | Raise KeyError => (Ok [], with_table self table)
  | Raise e => (Raise e, with_table self table)
  | Ok profile_mapping =>
      (Ok (elements (filter_names profile_mapping external_attribute_names)),
       with_table self table)
  end.

(** ** Nested attribute paths *)

(** The loop of [_get_nested_attribute_value]: [d = d.get(key)], leaving
    with [None] as soon as a lookup gives [None]. *)
Fixpoint get_keys (keys : list string) (d : pyval) : result pyval :=
  match keys with
  | [] => Ok d
  | key :: keys' =>
      d' ← py_get d key;
      match d' with
      | PNone => Ok PNone
      | _ => get_keys keys' d'
      end
  end.

Definition is_mapping (v : pyval) : Prop := ∃ m, v = PDict m.

(** The traversal as the words describe it, independently of the loop:
    [reaches d keys v] says that, starting at [d] and following [keys] one
    after the other, each segment is a key of the mapping reached so far,
    holds a value other than [None], and the last one holds [v]. *)
Inductive reaches : pyval → list string → pyval → Prop :=
| reaches_here (d : pyval) : reaches d [] d
| reaches_step (m : pydict) (key : string) (keys : list string) (v w : pyval) :
    Dict.get key m = Some v → v ≠ PNone → reaches v keys w →
    reaches (PDict m) (key :: keys) w.

Definition _get_nested_attribute_value (self : AttributeMapper)
    (nested_key : string) (data : pydict) : result pyval :=
  get_keys (PyStr.split (separator self) nested_key) (PDict data).

(** [_create_nested_attribute_value]; on an empty name list the Python
    recursion never reaches its base case. *)
Fixpoint _create_nested_attribute_value (nested_attribute_names : list string)
    (value : pyval) : result pydict :=
  match nested_attribute_names with
  | [] => Raise RecursionError
  | [name] => Ok [(name, value)]
  | name :: rest =>
      child_dict ← _create_nested_attribute_value rest value;
      Ok [(name, PDict child_dict)]
  end.

(** ** Collation *)

(** What one resolved candidate adds to the collated sequence: the elements
    of a list, a non-list value itself when it is truthy, nothing otherwise
    ([None], [""], [0], [False], an empty mapping). *)
Definition contribution (attr_val : pyval) : list pyval :=
  match attr_val with
  | PList l => l
  | _ => if truthy attr_val then [attr_val] else []
  end.

(** One iteration of the loop of
    [_collate_attribute_values_by_priority_order]. *)
Definition collate_step (attr_val : pyval) (acc : list pyval) : list pyval :=
  match attr_val with
  | PList l => acc ++ l
  | _ => if truthy attr_val then acc ++ [attr_val] else acc
  end.

Fixpoint collate_loop (self : AttributeMapper) (attribute_names : list string)
    (data : pydict) (acc : list pyval) : result (list pyval) :=
  match attribute_names with
  | [] => Ok acc
  | attr_name :: rest =>
      attr_val ← _get_nested_attribute_value self attr_name data;
      collate_loop self rest data (collate_step attr_val acc)
  end.

Definition _collate_attribute_values_by_priority_order (self : AttributeMapper)
    (attribute_names : list string) (data : pydict) : result (list pyval) :=
  collate_loop self attribute_names data [].

(** ** Values and the debug log

    [to_internal] and [from_internal] format the values they store into a
    debug log line ([str.format]) before storing them.  The log has no part
    in the results and the loops below leave it out.  Formatting can fail
    only on a value whose text Python refuses to produce: an integer of more
    than 4300 digits ([ValueError], Python 3.11 and later).  [int_free]
    singles out the values without integers, for which the loops below and
    the code raise the same exceptions. *)
Fixpoint int_free (v : pyval) : bool :=
  match v with
  | PInt _ => false
  | PList l => forallb int_free l
  | PDict d => forallb (λ entry, let '(_, w) := entry in int_free w) d
  | _ => true
  end.

(** ** The first pass of [to_internal]: the loop over the configured
    internal attributes (without the log lines, see above). *)
Fixpoint to_internal_loop (self : AttributeMapper) (attribute_profile : string)
    (external_dict : pydict) (attrs : attr_map) (internal_dict : pydict)
  : result pydict :=
  match attrs with
  | [] => Ok internal_dict
  | (internal_attribute_name, mapping) :: rest =>
      match Dict.get attribute_profile mapping with
      | None => to_internal_loop self attribute_profile external_dict rest internal_dict
      | Some external_attribute_name =>
          attribute_values ←
            _collate_attribute_values_by_priority_order self external_attribute_name
              external_dict;
          if truthy (PList attribute_values)
          then to_internal_loop self attribute_profile external_dict rest
                 (Dict.set internal_attribute_name (PList attribute_values) internal_dict)
          else to_internal_loop self attribute_profile external_dict rest internal_dict
      end
  end.

(** A rendering failure of the kinds the renderer catches: [NameError],
    [TypeError], or a result that is not a string. *)
Definition caught_failure (rendered : result pyval) : Prop :=
  rendered = Raise NameError ∨ rendered = Raise TypeError
  ∨ ∃ v, rendered = Ok v ∧ ∀ s, v ≠ PStr s.

Section with_engine.
Context `{Mako}.

(** ** Templates *)

Definition _render_attribute_template (self : AttributeMapper) (template : string)
    (data : pydict) : result (list pyval) :=
  t ← Template template;
  match render t data with
  | Ok (PStr _rendered) => Ok (PStr <$> PyStr.split (multivalue_separator self) _rendered)
  | Ok _ => Ok []
  | Raise NameError => Ok []
  | Raise TypeError => Ok []
  | Raise e => Raise e
  end.

(** [[self._render_attribute_template(t, internal_dict) for t in templates]] *)
Fixpoint render_templates (self : AttributeMapper) (templates : list string)
    (internal_dict : pydict) : result (list (list pyval)) :=
  match templates with
  | [] => Ok []
  | template :: rest =>
      values ← _render_attribute_template self template internal_dict;
      others ← render_templates self rest internal_dict;
      Ok (values :: others)
  end.

(** The body of the loop of [_handle_template_attributes] for an attribute
    that has a mapping in the profile. *)
Definition handle_template_step (self : AttributeMapper) (internal_attribute_name : string)
    (external_attribute_name : list string) (internal_dict : pydict) : result pydict :=
  let templates := filter (λ t, PyStr.contains "$" t = true) external_attribute_name in
  template_attribute_values ← render_templates self templates internal_dict;
  let flattened_attribute_values := concat template_attribute_values in
  let attribute_values :=
    py_or (PList flattened_attribute_values)
          (default PNone (Dict.get internal_attribute_name internal_dict)) in
  if truthy attribute_values
  then Ok (Dict.set internal_attribute_name attribute_values internal_dict)
  else Ok internal_dict.

Fixpoint handle_template_loop (self : AttributeMapper) (attribute_profile : string)
    (tattrs : attr_map) (internal_dict : pydict) : result pydict :=
  match tattrs with
  | [] => Ok internal_dict
  | (internal_attribute_name, mapping) :: rest =>
      match Dict.get attribute_profile mapping with
      | None => handle_template_loop self attribute_profile rest internal_dict
      | Some external_attribute_name =>
          internal_dict' ←
            handle_template_step self internal_attribute_name external_attribute_name
              internal_dict;
          handle_template_loop self attribute_profile rest internal_dict'
      end
  end.

Definition _handle_template_attributes (self : AttributeMapper)
    (attribute_profile : string) (internal_dict : pydict) : result pydict :=
  match template_attributes self with
  | None => Ok internal_dict
  | Some [] => Ok internal_dict
  | Some tattrs => handle_template_loop self attribute_profile tattrs internal_dict
  end.

(** ** [to_internal] *)

Definition to_internal (self : AttributeMapper) (attribute_profile : string)
    (external_dict : pydict) : result pydict :=
  internal_dict ←
    to_internal_loop self attribute_profile external_dict (from_internal_attributes self) [];
  _handle_template_attributes self attribute_profile internal_dict.

End with_engine.

(** ** [from_internal] (without the log lines, see [int_free]) *)

Fixpoint from_internal_loop (self : AttributeMapper) (attribute_profile : string)
    (internal_dict : pydict) (names : list string) (external_dict : pydict)
  : result pydict :=
  match names with
  | [] => Ok external_dict
  | internal_attribute_name :: rest =>
      match Dict.get internal_attribute_name (from_internal_attributes self) with
      | None => from_internal_loop self attribute_profile internal_dict rest external_dict
      | Some attribute_mapping =>
          match Dict.get attribute_profile attribute_mapping with
          | None => from_internal_loop self attribute_profile internal_dict rest external_dict
          | Some external_attribute_names =>
              match external_attribute_names with
              | [] => Raise IndexError
              | external_attribute_name :: _ =>
                  let value := default PNone (Dict.get internal_attribute_name internal_dict) in
                  if PyStr.contains (separator self) external_attribute_name
                  then
                    let nested_attribute_names :=
                      PyStr.split (separator self) external_attribute_name in
                    nested_dict ←
                      _create_nested_attribute_value (tail nested_attribute_names) value;
                    match nested_attribute_names with
                    | [] => Raise IndexError
                    | first :: _ =>
                        from_internal_loop self attribute_profile internal_dict rest
                          (Dict.set first (PDict nested_dict) external_dict)
                    end
                  else
                    from_internal_loop self attribute_profile internal_dict rest
                      (Dict.set external_attribute_name value external_dict)
              end
          end
      end
  end.

Definition from_internal (self : AttributeMapper) (attribute_profile : string)
    (internal_dict : pydict) : result pydict :=
  from_internal_loop self attribute_profile internal_dict (Dict.keys internal_dict) [].

(** ** A fragment of Mako

    Enough of the template language to run the mapper on concrete
    configurations: a template that is one expression, [${name[0]}] or
    [${name[0] | scope}], rendered with Mako's defaults (no error handler,
    exceptions not formatted, default filter [str]).  [name] is looked up
    among the keyword arguments of [render]; an unbound name is Mako's
    [UNDEFINED] object, which cannot be subscripted ([TypeError]).  The
    filter is this module's [scope], imported into the template; what it
    raises leaves [render] unchanged.

    The fragment keeps away from the names that mean something else to
    Mako or to Python: a variable that starts with an upper-case letter or
    an underscore, or that is a Python builtin or a name Mako reserves, and
    a record that binds a name Mako reserves, are outside the fragment.
    Templates, records and element values outside the fragment are reported
    as such and are used by no statement below. *)

Module MakoFragment.

Definition is_ident_start (a : ascii) : bool :=
  let n := nat_of_ascii a in
  (Nat.leb 65 n && Nat.leb n 90) || (Nat.leb 97 n && Nat.leb n 122) || Nat.eqb n 95.

Definition is_ident_char (a : ascii) : bool :=
  let n := nat_of_ascii a in
  is_ident_start a || (Nat.leb 48 n && Nat.leb n 57).

(** The longest prefix of identifier characters, and the rest. *)
Fixpoint span_ident (s : string) : string * string :=
  match s with
  | EmptyString => (EmptyString, EmptyString)
  | String a s' =>
      if is_ident_char a
      then let '(name, rest) := span_ident s' in (String a name, rest)
      else (EmptyString, s)
  end.

(** Names that [render] and the rendering context use for themselves. *)
Definition mako_names : list string :=
  ["self"; "buffer"; "context"; "loop"; "capture"; "caller"; "local"; "next";
   "parent"; "pageargs"; "args"; "kwargs"; "data"; "template"].

(** The lower-case names of Python's [builtins] module. *)
Definition python_builtins : list string :=
  ["abs"; "aiter"; "all"; "anext"; "any"; "ascii"; "bin"; "bool"; "breakpoint";
   "bytearray"; "bytes"; "callable"; "chr"; "classmethod"; "compile"; "complex";
   "copyright"; "credits"; "delattr"; "dict"; "dir"; "divmod"; "enumerate"; "eval";
   "exec"; "exit"; "filter"; "float"; "format"; "frozenset"; "getattr"; "globals";
   "hasattr"; "hash"; "help"; "hex"; "id"; "input"; "int"; "isinstance";
   "issubclass"; "iter"; "len"; "license"; "list"; "locals"; "map"; "max";
   "memoryview"; "min"; "next"; "object"; "oct"; "open"; "ord"; "pow"; "print";
   "property"; "quit"; "range"; "repr"; "reversed"; "round"; "set"; "setattr";
   "slice"; "sorted"; "staticmethod"; "str"; "sum"; "super"; "tuple"; "type";
   "vars"; "zip"].

Definition is_lower (a : ascii) : bool :=
  let n := nat_of_ascii a in Nat.leb 97 n && Nat.leb n 122.

Definition mem (name : string) (names : list string) : bool :=
  existsb (String.eqb name) names.

(** A variable the fragment can look up. *)
Definition plain_variable (name : string) : bool :=
  match name with
  | EmptyString => false
  | String a _ => is_lower a && negb (mem name mako_names) && negb (mem name python_builtins)
  end.

(** A record that binds no name reserved by Mako. *)
Definition plain_record (data : pydict) : bool :=
  forallb (λ key, negb (mem key mako_names)) (Dict.keys data).

(** A parsed template: the variable, and whether [| scope] is applied. *)
Record expr : Type := { var : string; scoped : bool }.

Definition parse (template : string) : option expr :=
  match template with
  | String "$" (String "{" (String a body)) =>
      if is_ident_start a then
        let '(name, rest) := span_ident (String a body) in
        if String.eqb rest "[0]}" then Some {| var := name; scoped := false |}
        else if String.eqb rest "[0] | scope}" then Some {| var := name; scoped := true |}
        else None
      else None
  | _ => None
  end.

Definition not_modelled {A} : result A := Raise (OtherException "outside the fragment").

Definition eval (e : expr) (data : pydict) : result pyval :=
  if plain_variable (var e) && plain_record data then
    match Dict.get (var e) data with
    | None => Raise TypeError
    | Some (PList []) => Raise IndexError
    | Some (PList (PStr s :: _)) =>
        if scoped e then PStr <$> scope s else Ok (PStr s)
    | Some _ => not_modelled
    end
  else not_modelled.

Definition engine : Mako := {|
  mako_template := expr;
  Template template := from_option Ok not_modelled (parse template);
  render := eval
|}.

End MakoFragment.


(** * Properties *)

(** ** Strings *)

Module PyStrFacts.
Import PyStr.

Lemma append_cons (a : ascii) (s t : string) :
  String a s +:+ t = String a (s +:+ t).
Proof. reflexivity. Qed.

Lemma append_nil_l (t : string) : EmptyString +:+ t = t.
Proof. reflexivity. Qed.

Lemma append_nil_r (s : string) : s +:+ EmptyString = s.
Proof. induction s as [|a s IH]; [done | by rewrite append_cons, IH]. Qed.

Lemma contains_occurs (c : ascii) (s : string) :
  contains c s = true ↔ occurs c s.
Proof.
  induction s as [|a s IH]; simpl.
  - split; [done |]. intros (pre & post & E). by destruct pre.
  - destruct (Ascii.eqb_spec a c) as [-> | Hne].
    + split; [| done]. intros _. by exists EmptyString, s.
    + rewrite IH. split.
      * intros (pre & post & ->). by exists (String a pre), post.
      * intros (pre & post & E). destruct pre as [|b pre].
        -- rewrite append_nil_l in E. by injection E as -> _.
        -- rewrite append_cons in E. injection E as _ ->. by exists pre, post.
Qed.

Lemma contains_false (c : ascii) (s : string) :
  contains c s = false ↔ ¬ occurs c s.
Proof.
  rewrite <- contains_occurs. by destruct (contains c s).
Qed.

Lemma contains_app (c : ascii) (s t : string) :
  contains c (s +:+ t) = contains c s || contains c t.
Proof.
  induction s as [|a s IH]; [done |]. rewrite append_cons. simpl.
  by destruct (Ascii.eqb a c).
Qed.

(** [partition] cuts at the first occurrence of the separator. *)
Lemma partition_first (sep : ascii) (pre post : string) :
  contains sep pre = false →
  partition sep (pre +:+ String sep post) = (pre, String sep EmptyString, post).
Proof.
  induction pre as [|a pre IH].
  - intros _. rewrite append_nil_l. simpl. by rewrite Ascii.eqb_refl.
  - rewrite append_cons. simpl.
    destruct (Ascii.eqb a sep); [done |]. intros Hpre. by rewrite IH.
Qed.

Lemma partition_absent (sep : ascii) (s : string) :
  contains sep s = false → partition sep s = (s, EmptyString, EmptyString).
Proof.
  induction s as [|a s IH]; simpl; [done |].
  destruct (Ascii.eqb a sep); [done |]. intros Hs. by rewrite IH.
Qed.

Lemma split_nonempty (sep : ascii) (s : string) : split sep s ≠ [].
Proof.
  destruct s as [|a s]; simpl; [done |].
  destruct (Ascii.eqb a sep); [done |]. by destruct (split sep s).
Qed.

(** A string without the separator is its own single piece. *)
Lemma split_absent (sep : ascii) (s : string) :
  contains sep s = false → split sep s = [s].
Proof.
  induction s as [|a s IH]; simpl; [done |].
  destruct (Ascii.eqb a sep); [done |]. intros Hs. by rewrite IH.
Qed.

(** With the separator present there are at least two pieces. *)
Lemma split_present (sep : ascii) (s : string) :
  contains sep s = true → ∃ first second rest, split sep s = first :: second :: rest.
Proof.
  induction s as [|a s IH]; simpl; [done |].
  destruct (Ascii.eqb a sep).
  - intros _. destruct (split sep s) as [|p ps] eqn:E; [by apply split_nonempty in E |].
    by exists EmptyString, p, ps.
  - intros Hs. destruct (IH Hs) as (p & q & r & ->). by exists (String a p), q, r.
Qed.

(** Splitting a joined path gives the segments back, when no segment holds
    the separator. *)
Lemma split_join (sep : ascii) (pieces : list string) :
  pieces ≠ [] →
  Forall (λ p, contains sep p = false) pieces →
  split sep (join sep pieces) = pieces.
Proof.
  intros Hne Hall. induction Hall as [|p ps Hp Hps IH]; [done |].
  destruct ps as [|q ps]; [by apply split_absent |].
  change (join sep (p :: q :: ps)) with (p +:+ String sep (join sep (q :: ps))).
  specialize (IH ltac:(done)). revert IH. generalize (join sep (q :: ps)). intros j IH.
  clear Hne Hps. revert Hp. induction p as [|a p IHp]; intros Hp.
  - rewrite append_nil_l. simpl. by rewrite Ascii.eqb_refl, IH.
  - rewrite append_cons. simpl in *.
    destruct (Ascii.eqb a sep); [done |]. by rewrite (IHp Hp).
Qed.

End PyStrFacts.

(** ** The error monad *)

Lemma bind_Ok {A B} (f : A → result B) (m : result A) (b : B) :
  m ≫= f = Ok b ↔ ∃ a, m = Ok a ∧ f a = Ok b.
Proof.
  destruct m as [a | e]; simpl; split.
  - intros Hf. by exists a.
  - by intros (a' & [= <-] & Hf).
  - done.
  - by intros (a' & [=] & _).
Qed.

Lemma bind_Raise {A B} (f : A → result B) (m : result A) (e : exn) :
  m ≫= f = Raise e ↔ m = Raise e ∨ ∃ a, m = Ok a ∧ f a = Raise e.
Proof.
  destruct m as [a | e']; simpl; split.
  - intros Hf. right. by exists a.
  - by intros [[=] | (a' & [= <-] & Hf)].
  - intros [= ->]. by left.
  - by intros [[= ->] | (a' & [=] & _)].
Qed.

(** ** [scope] *)

(** C10: on a string with an ['@'], [scope] returns what follows the first
    ['@'] (which can hold further ['@']s) and does not raise; it raises
    [ValueError], and nothing else, exactly on the strings without ['@']. *)
Theorem scope_after_first_at (s : string) :
  (∀ pre post, s = pre +:+ String "@" post → ¬ PyStr.occurs "@" pre →
               scope s = Ok post)
  ∧ (PyStr.occurs "@" s → ∃ domain_part, scope s = Ok domain_part)
  ∧ (scope s = Raise ValueError ↔ ¬ PyStr.occurs "@" s)
  ∧ (∀ e, scope s = Raise e → e = ValueError).
Proof.
  assert (Hcut : ∀ pre post, s = pre +:+ String "@" post → ¬ PyStr.occurs "@" pre →
                             scope s = Ok post).
  { intros pre post -> Hpre. apply PyStrFacts.contains_false in Hpre.
    unfold scope. rewrite PyStrFacts.contains_app, Hpre. simpl.
    by rewrite PyStrFacts.partition_first. }
  split; [exact Hcut |]. unfold scope.
  destruct (PyStr.contains "@" s) eqn:Hin; simpl.
  - apply PyStrFacts.contains_occurs in Hin as Hocc.
    destruct (PyStr.partition "@" s) as [[local_part sep] domain_part].
    split; [by exists domain_part |]. split; [| done].
    split; [done |]. by intros [].
  - apply PyStrFacts.contains_false in Hin as Hocc.
    split; [done |]. split; [done |]. by intros e [= <-].
Qed.

Lemma scope_after_first_at_witness :
  scope "user@idp@example.org" = Ok "idp@example.org"
  ∧ scope "unscoped" = Raise ValueError.
Proof.
  split.
  - apply (proj1 (scope_after_first_at "user@idp@example.org") "user" "idp@example.org").
    + reflexivity.
    + apply PyStrFacts.contains_false. reflexivity.
  - apply (proj1 (proj2 (proj2 (scope_after_first_at "unscoped")))).
    apply PyStrFacts.contains_false. reflexivity.
Defined.

(** ** Nested path traversal *)

Lemma py_get_Ok (d : pyval) (key : string) (v : pyval) :
  py_get d key = Ok v → ∃ m, d = PDict m ∧ v = default PNone (Dict.get key m).
Proof. destruct d; simpl; try done. intros [= <-]. by eexists. Qed.

Lemma py_get_Raise (d : pyval) (key : string) (e : exn) :
  py_get d key = Raise e → e = AttributeError ∧ ¬ is_mapping d.
Proof.
  destruct d; simpl; try done; intros [= <-]; (split; [done |]); by intros [m ?].
Qed.

(** The loop over a path cut in two: the second part continues from the
    value the first part reached, unless that value is [None]. *)
Lemma get_keys_app (p q : list string) (d : pyval) :
  p ≠ [] ∨ d ≠ PNone →
  get_keys (p ++ q) d =
  get_keys p d ≫= λ v, match v with PNone => Ok PNone | _ => get_keys q v end.
Proof.
  revert d. induction p as [|k p IH]; intros d Hd.
  - destruct Hd as [? | Hd]; [done |]. by destruct d.
  - simpl. destruct (py_get d k) as [d' | e]; simpl; [| done].
    destruct d'; try done; apply IH; by right.
Qed.

Lemma get_keys_only_AttributeError (keys : list string) (d : pyval) (e : exn) :
  get_keys keys d = Raise e → e = AttributeError.
Proof.
  revert d. induction keys as [|k keys IH]; intros d; simpl; [done |].
  destruct (py_get d k) as [d' | e'] eqn:Hget; simpl.
  - destruct d'; try done; apply IH.
  - intros [= <-]. by apply py_get_Raise in Hget as [-> _].
Qed.

(** A raise comes from a value that is not a mapping and is asked for the
    next segment. *)
Lemma get_keys_Raise_inv (keys : list string) (d : pyval) (e : exn) :
  d ≠ PNone →
  get_keys keys d = Raise e →
  ∃ prefix key rest v,
    keys = prefix ++ key :: rest ∧ get_keys prefix d = Ok v ∧ v ≠ PNone ∧ ¬ is_mapping v.
Proof.
  revert d. induction keys as [|k keys IH]; intros d Hd; simpl; [done |].
  destruct (py_get d k) as [d' | e'] eqn:Hget; simpl.
  - intros Hrest.
    assert (Hd' : d' ≠ PNone) by (intros ->; done).
    assert (Hgo : get_keys keys d' = Raise e) by (by destruct d').
    destruct (IH d' Hd' Hgo) as (prefix & key & rest & v & -> & Hv & Hnone & Hmap).
    exists (k :: prefix), key, rest, v. repeat split; try done.
    simpl. rewrite Hget. simpl. by destruct d'.
  - intros _. apply py_get_Raise in Hget as [_ Hmap].
    by exists [], k, keys, d.
Qed.

Lemma get_keys_blocked (prefix : list string) (key : string) (rest : list string)
    (d v : pyval) :
  d ≠ PNone → get_keys prefix d = Ok v → v ≠ PNone → ¬ is_mapping v →
  get_keys (prefix ++ key :: rest) d = Raise AttributeError.
Proof.
  intros Hd Hv Hnone Hmap. rewrite get_keys_app by (by right). rewrite Hv. simpl.
  destruct v; try done. destruct Hmap. by eexists.
Qed.

Lemma get_keys_absent (prefix : list string) (key : string) (rest : list string)
    (d : pyval) (m : pydict) :
  d ≠ PNone → get_keys prefix d = Ok (PDict m) →
  Dict.get key m = None ∨ Dict.get key m = Some PNone →
  get_keys (prefix ++ key :: rest) d = Ok PNone.
Proof.
  intros Hd Hv Hkey. rewrite get_keys_app by (by right). rewrite Hv. simpl.
  by destruct Hkey as [-> | ->].
Qed.

(** C2, the claim as stated fails: a list met before the last segment makes
    the lookup of the next segment raise [AttributeError]. *)
Lemma get_nested_raises_on_list :
  _get_nested_attribute_value (mapper [] None) "address.street_address"
    [("address", PList [PStr "Main St 1"])] = Raise AttributeError.
Proof. reflexivity. Qed.

(** What the loop does, against the traversal in words. *)
Lemma get_keys_found (keys : list string) (d v : pyval) :
  reaches d keys v → get_keys keys d = Ok v.
Proof.
  induction 1 as [d | m key keys v w Hkey Hv _ IH]; simpl; [done |].
  rewrite Hkey. simpl. by destruct v.
Qed.

Lemma get_keys_missing (prefix : list string) (key : string) (rest : list string)
    (d : pyval) (m : pydict) :
  reaches d prefix (PDict m) →
  Dict.get key m = None ∨ Dict.get key m = Some PNone →
  get_keys (prefix ++ key :: rest) d = Ok PNone.
Proof.
  intros Hreach Hkey. remember (PDict m) as target eqn:Htarget.
  induction Hreach as [d | m' key' keys v w Hkey' Hv _ IH]; simpl.
  - subst d. simpl. by destruct Hkey as [-> | ->].
  - rewrite Hkey'. simpl. destruct v; try done; by apply IH.
Qed.

Lemma get_keys_not_a_mapping (prefix : list string) (key : string) (rest : list string)
    (d v : pyval) :
  reaches d prefix v → ¬ is_mapping v →
  get_keys (prefix ++ key :: rest) d = Raise AttributeError.
Proof.
  intros Hreach Hmap.
  induction Hreach as [d | m' key' keys v w Hkey' Hv _ IH]; simpl.
  - destruct d; try done. destruct Hmap. by eexists.
  - rewrite Hkey'. simpl. destruct v; try done; by apply IH.
Qed.

(** Every traversal ends in one of the three ways. *)
Lemma reaches_cases (keys : list string) (d : pyval) :
  (∃ v, reaches d keys v)
  ∨ (∃ prefix key rest m,
       keys = prefix ++ key :: rest ∧ reaches d prefix (PDict m)
       ∧ (Dict.get key m = None ∨ Dict.get key m = Some PNone))
  ∨ (∃ prefix key rest v,
       keys = prefix ++ key :: rest ∧ reaches d prefix v ∧ ¬ is_mapping v).
Proof.
  revert d. induction keys as [|key keys IH]; intros d.
  - left. exists d. constructor.
  - destruct d as [| b | n | s | l | m].
    1-5: right; right; eexists [], key, keys, _;
         (split; [done |]); (split; [constructor |]); by intros [m ?].
    destruct (Dict.get key m) as [v |] eqn:Hkey.
    + assert (v = PNone ∨ v ≠ PNone) as [-> | Hv]
        by (destruct v; (by left) || (by right)).
      * right. left. exists [], key, keys, m. split; [done |].
        split; [constructor | by right].
      * destruct (IH v) as [(w & Hw)
                           | [(prefix & k & rest & m' & -> & Hreach & Hk)
                             | (prefix & k & rest & w & -> & Hreach & Hw)]].
        -- left. exists w. by econstructor.
        -- right. left. exists (key :: prefix), k, rest, m'. split; [done |].
           split; [by econstructor | done].
        -- right. right. exists (key :: prefix), k, rest, w. split; [done |].
           split; [by econstructor | done].
    + right. left. exists [], key, keys, m. split; [done |].
      split; [constructor | by left].
Qed.

(** C2, amended: nested-path get walks the segments in order.  It returns
    the value at the end of the path when every segment is found; it returns
    [None] as soon as a segment is absent from the mapping reached so far
    (or holds [None] there); the only exception it raises is
    [AttributeError], and it raises it exactly when the value reached before
    some segment is neither [None] nor a mapping (a list, a string, a
    number). *)
Theorem get_nested_outcome (self : AttributeMapper) (nested_key : string) (data : pydict) :
  let keys := PyStr.split (separator self) nested_key in
  let outcome := _get_nested_attribute_value self nested_key data in
  (∀ v, outcome = Ok v ↔
        reaches (PDict data) keys v
        ∨ (v = PNone
           ∧ ∃ prefix key rest m,
               keys = prefix ++ key :: rest ∧ reaches (PDict data) prefix (PDict m)
               ∧ (Dict.get key m = None ∨ Dict.get key m = Some PNone)))
  ∧ (∀ e, outcome = Raise e ↔
          e = AttributeError
          ∧ ∃ prefix key rest v,
              keys = prefix ++ key :: rest ∧ reaches (PDict data) prefix v
              ∧ v ≠ PNone ∧ ¬ is_mapping v).
Proof.
  intros keys outcome. subst outcome. unfold _get_nested_attribute_value. fold keys.
  assert (Hnone : ∀ prefix v, reaches (PDict data) prefix v → v ≠ PNone).
  { intros prefix v Hreach. inversion Hreach as [| m key ks w u Hkey Hw Hrest]; subst.
    - done.
    - clear Hreach Hkey. revert Hw. induction Hrest; [done | auto]. }
  split.
  - intros v. split.
    + intros Hok. destruct (reaches_cases keys (PDict data))
        as [(w & Hw) | [(prefix & k & rest & m & Hkeys & Hreach & Hk)
                       | (prefix & k & rest & w & Hkeys & Hreach & Hw)]].
      * rewrite (get_keys_found _ _ _ Hw) in Hok. injection Hok as <-. by left.
      * rewrite Hkeys, (get_keys_missing _ _ _ _ _ Hreach Hk) in Hok.
        injection Hok as <-. right. split; [done |]. by exists prefix, k, rest, m.
      * by rewrite Hkeys, (get_keys_not_a_mapping _ _ _ _ _ Hreach Hw) in Hok.
    + intros [Hreach | (-> & prefix & k & rest & m & -> & Hreach & Hk)].
      * by apply get_keys_found.
      * by apply get_keys_missing with m.
  - intros e. split.
    + intros Hraise. destruct (reaches_cases keys (PDict data))
        as [(w & Hw) | [(prefix & k & rest & m & Hkeys & Hreach & Hk)
                       | (prefix & k & rest & w & Hkeys & Hreach & Hw)]].
      * by rewrite (get_keys_found _ _ _ Hw) in Hraise.
      * by rewrite Hkeys, (get_keys_missing _ _ _ _ _ Hreach Hk) in Hraise.
      * rewrite Hkeys, (get_keys_not_a_mapping _ _ _ _ _ Hreach Hw) in Hraise.
        injection Hraise as <-. split; [done |]. exists prefix, k, rest, w.
        repeat split; try done. by apply (Hnone prefix).
    + intros (-> & prefix & k & rest & v & -> & Hreach & _ & Hmap).
      by apply get_keys_not_a_mapping with v.
Qed.

Lemma get_nested_outcome_witness :
  _get_nested_attribute_value (mapper [] None) "address.street_address"
    [("address", PDict [("locality", PList [PStr "Umea"])])] = Ok PNone
  ∧ _get_nested_attribute_value (mapper [] None) "name.given"
      [("name", PStr "")] = Raise AttributeError.
Proof.
  split.
  - apply (proj2 (proj1 (get_nested_outcome (mapper [] None) "address.street_address"
                           [("address", PDict [("locality", PList [PStr "Umea"])])])
                    PNone)).
    right. split; [reflexivity |].
    exists ["address"], "street_address", [], [("locality", PList [PStr "Umea"])].
    split; [reflexivity |]. split; [| left; reflexivity].
    apply (reaches_step _ "address" [] (PDict [("locality", PList [PStr "Umea"])]));
      [reflexivity | discriminate | constructor].
  - apply (proj2 (proj2 (get_nested_outcome (mapper [] None) "name.given"
                           [("name", PStr "")]) AttributeError)).
    split; [reflexivity |]. exists ["name"], "given", [], (PStr "").
    split; [reflexivity |]. split.
    + apply (reaches_step _ "name" [] (PStr "")); [reflexivity | discriminate | constructor].
    + split; [discriminate |]. intros [m Hm]. discriminate Hm.
Defined.

(** ** Dictionaries *)

Module DictFacts.
Import Dict.

Section facts.
Context {V : Type}.
Implicit Types (d : list (string * V)) (k : string) (v : V).

Lemma get_set_eq k v d : get k (set k v d) = Some v.
Proof.
  induction d as [|[k' v'] d IH]; simpl.
  - by rewrite String.eqb_refl.
  - destruct (String.eqb k' k) eqn:E; simpl; by rewrite E.
Qed.

Lemma get_set_ne k k' v d : k ≠ k' → get k' (set k v d) = get k' d.
Proof.
  intros Hne. induction d as [|[k0 v0] d IH]; simpl.
  - by apply String.eqb_neq in Hne as ->.
  - destruct (String.eqb_spec k0 k) as [-> | Hk0]; simpl.
    + by apply String.eqb_neq in Hne as ->.
    + by rewrite IH.
Qed.

(** Storing the value a key already has leaves the dictionary as it is. *)
Lemma set_same k v d : get k d = Some v → set k v d = d.
Proof.
  induction d as [|[k' v'] d IH]; simpl; [done |].
  destruct (String.eqb k' k); [by intros [= ->] |]. intros Hd. by rewrite IH.
Qed.

Lemma get_None k d : get k d = None ↔ k ∉ keys d.
Proof.
  unfold keys. induction d as [|[k' v'] d IH]; simpl.
  - split; [| done]. intros _. apply not_elem_of_nil.
  - rewrite not_elem_of_cons, <- IH.
    destruct (String.eqb_spec k' k) as [-> | Hne]; split; try done.
    + by intros [? _].
    + by intros [_ ?].
Qed.

Lemma get_Some_elem_of k v d : get k d = Some v → (k, v) ∈ d.
Proof.
  induction d as [|[k' v'] d IH]; simpl; [done |].
  destruct (String.eqb_spec k' k) as [-> | Hne].
  - intros [= ->]. apply elem_of_cons. by left.
  - intros Hd. apply elem_of_cons. right. by apply IH.
Qed.

(** With distinct keys, an entry of the dictionary is what [get] finds. *)
Lemma elem_of_get k v d : wf d → (k, v) ∈ d → get k d = Some v.
Proof.
  unfold wf, keys. induction d as [|[k' v'] d IH]; simpl.
  - intros _ Hin. by apply elem_of_nil in Hin.
  - intros Hnd Hin. apply NoDup_cons in Hnd as [Hk' Hnd].
    apply elem_of_cons in Hin as [[= -> ->] | Hin]; [by rewrite String.eqb_refl |].
    destruct (String.eqb_spec k' k) as [-> | Hne]; [| by apply IH].
    destruct Hk'. apply list_elem_of_fmap. by exists (k, v).
Qed.

End facts.
End DictFacts.

(** Decides that the keys of a concrete dictionary are distinct. *)
Ltac dict_wf :=
  unfold Dict.wf, Dict.keys; simpl;
  apply (bool_decide_unpack _); vm_compute; exact I.

(** ** Collation *)

Lemma collate_loop_spec (self : AttributeMapper) (attribute_names : list string)
    (data : pydict) (acc : list pyval) :
  collate_loop self attribute_names data acc =
  attr_vals ← mapM (λ attr_name, _get_nested_attribute_value self attr_name data)
                   attribute_names;
  Ok (acc ++ concat (contribution <$> attr_vals)).
Proof.
  revert acc. induction attribute_names as [|attr_name rest IH]; intros acc; simpl.
  - by rewrite app_nil_r.
  - destruct (_get_nested_attribute_value self attr_name data) as [attr_val | e];
      simpl; [| done].
    rewrite IH.
    destruct (mapM _ rest) as [attr_vals | e]; simpl; [| done].
    f_equal. rewrite app_assoc. f_equal.
    unfold collate_step, contribution.
    destruct attr_val as [| b | n | s | l | d]; simpl; try done.
    + by rewrite app_nil_r.
    + destruct b; by rewrite ?app_nil_r.
    + destruct (negb _); by rewrite ?app_nil_r.
    + destruct (negb _); by rewrite ?app_nil_r.
    + destruct d; by rewrite ?app_nil_r.
Qed.

(** C4, the claim as stated fails: an empty string found under a candidate
    name is not appended. *)
Lemma collate_drops_empty_string :
  _collate_attribute_values_by_priority_order (mapper [] None)
    ["displayName"; "cn"] [("displayName", PStr ""); ("cn", PStr "Alice")]
  = Ok [PStr "Alice"].
Proof. reflexivity. Qed.

(** C4, amended: every candidate is resolved by nested-path traversal, in
    candidate order, and the resolved values are collated in that order into
    one flat sequence: a list is spread in place, a non-list value is
    appended when it is truthy, and a falsy non-list value (missing/[None],
    the empty string, zero, [False], an empty mapping) adds nothing.  The
    first traversal that raises makes the collation raise. *)
Theorem collate_in_candidate_order (self : AttributeMapper)
    (attribute_names : list string) (data : pydict) :
  _collate_attribute_values_by_priority_order self attribute_names data =
  attr_vals ← mapM (λ attr_name, _get_nested_attribute_value self attr_name data)
                   attribute_names;
  Ok (concat ((λ attr_val,
                 match attr_val with
                 | PList l => l
                 | _ => if truthy attr_val then [attr_val] else []
                 end) <$> attr_vals)).
Proof. apply collate_loop_spec. Qed.

(** ** [to_internal_filter] and the inverse table *)

Lemma elem_of_filter_names_from (profile_mapping : gmap string string)
    (external_attribute_names : list string) (names : gset string) (internal : string) :
  internal ∈ fold_left (λ (names : gset string) external,
                          match profile_mapping !! external with
                          | Some internal => names ∪ {[internal]}
                          | None => names
                          end) external_attribute_names names
  ↔ internal ∈ names
    ∨ ∃ external, external ∈ external_attribute_names
                  ∧ profile_mapping !! external = Some internal.
Proof.
  revert names. induction external_attribute_names as [|x xs IH]; intros names; simpl.
  - split; [by left |]. intros [? | (x & Hx & _)]; [done |]. by apply elem_of_nil in Hx.
  - rewrite IH. split.
    + intros [Hin | (x' & Hx' & Hmap)].
      * destruct (profile_mapping !! x) as [i |] eqn:Hx; [| by left].
        apply elem_of_union in Hin as [Hin | Hin]; [by left |].
        apply elem_of_singleton in Hin as ->. right. exists x. split; [| done].
        apply elem_of_cons. by left.
      * right. exists x'. split; [| done]. apply elem_of_cons. by right.
    + intros [Hin | (x' & Hx' & Hmap)].
      * left. destruct (profile_mapping !! x); [| done]. apply elem_of_union. by left.
      * apply elem_of_cons in Hx' as [-> | Hx'].
        -- left. rewrite Hmap. apply elem_of_union. right. by apply elem_of_singleton.
        -- right. by exists x'.
Qed.

Lemma elem_of_filter_names (profile_mapping : gmap string string)
    (external_attribute_names : list string) (internal : string) :
  internal ∈ filter_names profile_mapping external_attribute_names
  ↔ ∃ external, external ∈ external_attribute_names
                ∧ profile_mapping !! external = Some internal.
Proof.
  unfold filter_names. rewrite elem_of_filter_names_from. split; [| by right].
  intros [Hin | ?]; [| done]. by apply not_elem_of_empty in Hin.
Qed.

(** What [table[profile]] hands to the filter: the profile's table, or the
    fresh empty dictionary. *)
Lemma defaultdict_getitem_value (profile : string)
    (table : gmap string (gmap string string)) :
  (defaultdict_getitem profile table).1 = Ok (default ∅ (table !! profile)).
Proof. unfold defaultdict_getitem. by destruct (table !! profile). Qed.

(** C9: [to_internal_filter] never raises; its result has no duplicates and
    holds exactly the internal names that some supplied external name
    resolves to in the profile's inverse table; for a profile that is not in
    the inverse table the result is empty. *)
Theorem to_internal_filter_result (self : AttributeMapper) (attribute_profile : string)
    (external_attribute_names : list string) :
  ∃ internal_attribute_names,
    (to_internal_filter self attribute_profile external_attribute_names).1
      = Ok internal_attribute_names
    ∧ NoDup internal_attribute_names
    ∧ (∀ internal,
         internal ∈ internal_attribute_names
         ↔ ∃ external profile_mapping,
             external ∈ external_attribute_names
             ∧ to_internal_attributes self !! attribute_profile = Some profile_mapping
             ∧ profile_mapping !! external = Some internal)
    ∧ (to_internal_attributes self !! attribute_profile = None →
       internal_attribute_names = []).
Proof.
  unfold to_internal_filter.
  pose proof (defaultdict_getitem_value attribute_profile (to_internal_attributes self))
    as Hval.
  destruct (defaultdict_getitem _ _) as [r table]. simpl in Hval. subst r. simpl.
  set (profile_mapping := default ∅ (to_internal_attributes self !! attribute_profile)).
  assert (Hmem : ∀ internal,
             internal ∈ elements (filter_names profile_mapping external_attribute_names)
             ↔ ∃ external pm,
                 external ∈ external_attribute_names
                 ∧ to_internal_attributes self !! attribute_profile = Some pm
                 ∧ pm !! external = Some internal).
  { intros internal. rewrite elem_of_elements, elem_of_filter_names.
    subst profile_mapping.
    destruct (to_internal_attributes self !! attribute_profile) as [pm |]; simpl.
    - split.
      + intros (x & Hx & Hm). by exists x, pm.
      + intros (x & pm' & Hx & [= <-] & Hm). by exists x.
    - split.
      + intros (x & _ & Hm). by rewrite lookup_empty in Hm.
      + by intros (x & pm' & _ & [=] & _). }
  eexists. split; [done |]. split; [apply NoDup_elements |]. split; [exact Hmem |].
  intros Hnone. apply elem_of_nil_inv. intros internal Hin.
  apply Hmem in Hin as (x & pm & _ & Hsome & _). by rewrite Hnone in Hsome.
Qed.

Lemma to_internal_filter_result_witness :
  ∃ internal_attribute_names,
    (to_internal_filter (mapper [("mail", [("saml", ["email"])])] None)
       "nonexistent" ["email"; "givenName"]).1 = Ok internal_attribute_names
    ∧ internal_attribute_names = [].
Proof.
  destruct (to_internal_filter_result (mapper [("mail", [("saml", ["email"])])] None)
              "nonexistent" ["email"; "givenName"])
    as (names & Hok & _ & _ & Hempty).
  exists names. split; [exact Hok |]. apply Hempty. reflexivity.
Defined.

(** The filter changes the inverse table only by giving an unknown profile an
    empty entry. *)
Lemma to_internal_filter_table (self : AttributeMapper) (attribute_profile : string)
    (external_attribute_names : list string) :
  to_internal_attributes
    (to_internal_filter self attribute_profile external_attribute_names).2
  = match to_internal_attributes self !! attribute_profile with
    | Some _ => to_internal_attributes self
    | None => <[attribute_profile := ∅]> (to_internal_attributes self)
    end.
Proof.
  unfold to_internal_filter, defaultdict_getitem.
  by destruct (to_internal_attributes self !! attribute_profile).
Qed.

(** C3, the code at the failing input: asking the filter about a profile
    that is not configured adds that profile to the inverse table. *)
Theorem to_internal_filter_grows_table :
  let self := mapper [("mail", [("saml", ["email"])])] None in
  let self' := (to_internal_filter self "nonexistent" []).2 in
  to_internal_attributes self !! "nonexistent" = None
  ∧ to_internal_attributes self' !! "nonexistent" = Some ∅
  ∧ dom (to_internal_attributes self') ≠ dom (to_internal_attributes self).
Proof.
  intros self self'. subst self'.
  assert (Hnone : to_internal_attributes self !! "nonexistent" = None) by reflexivity.
  rewrite to_internal_filter_table, Hnone.
  split; [done |]. split; [by rewrite lookup_insert_eq |].
  intros Hdom. apply not_elem_of_dom in Hnone. apply Hnone. rewrite <- Hdom.
  apply elem_of_dom. rewrite lookup_insert_eq. by eexists.
Qed.

(** ** Templates *)

Section templates.
Context `{Mako}.
Implicit Types (self : AttributeMapper) (d : pydict).

Lemma render_templates_all_empty self (templates : list string) d :
  Forall (λ template, _render_attribute_template self template d = Ok []) templates →
  ∃ vals, render_templates self templates d = Ok vals ∧ concat vals = [].
Proof.
  induction 1 as [|template rest Hhead _ (vals & Hrest & Hnil)]; simpl.
  - by exists [].
  - rewrite Hhead, Hrest. simpl. by exists ([] :: vals).
Qed.

(** What one step of the template loop does to the record. *)
Lemma handle_template_step_Ok self (name : string) (names : list string) d d' :
  handle_template_step self name names d = Ok d' →
  ∃ vals,
    render_templates self (filter (λ t, PyStr.contains "$" t = true) names) d = Ok vals
    ∧ (concat vals = [] → d' = d)
    ∧ (concat vals ≠ [] → d' = Dict.set name (PList (concat vals)) d).
Proof.
  unfold handle_template_step.
  destruct (render_templates _ _ _) as [vals | e]; simpl; [| done].
  intros Hstep. exists vals. split; [done |].
  unfold py_or in Hstep. destruct (concat vals) as [|x flat] eqn:Hflat; simpl in Hstep.
  - split; [| done]. intros _.
    destruct (Dict.get name d) as [v |] eqn:Hget; simpl in Hstep.
    + destruct (truthy v); injection Hstep as <-; [| done].
      by apply DictFacts.set_same.
    + by injection Hstep as <-.
  - split; [done |]. intros _. by injection Hstep as <-.
Qed.

Lemma handle_template_step_other self (name other : string) (names : list string) d d' :
  handle_template_step self name names d = Ok d' → name ≠ other →
  Dict.get other d' = Dict.get other d.
Proof.
  intros (vals & _ & Hnil & Hcons)%handle_template_step_Ok Hne.
  destruct (concat vals) as [|x flat].
  - by rewrite Hnil.
  - rewrite Hcons by done. by apply DictFacts.get_set_ne.
Qed.

(** An attribute that is not template-declared keeps its value. *)
Lemma handle_template_loop_other self (profile other : string) (tattrs : attr_map) d res :
  other ∉ Dict.keys tattrs →
  handle_template_loop self profile tattrs d = Ok res →
  Dict.get other res = Dict.get other d.
Proof.
  revert d. induction tattrs as [|[name mapping] rest IH]; intros d Hnotin; simpl.
  - by intros [= <-].
  - unfold Dict.keys in Hnotin. simpl in Hnotin.
    apply not_elem_of_cons in Hnotin as [Hne Hnotin].
    destruct (Dict.get profile mapping) as [names |]; [| by apply IH].
    intros (d' & Hstep & Hloop)%bind_Ok.
    rewrite (IH d' Hnotin Hloop). by eapply handle_template_step_other.
Qed.

Lemma handle_template_attributes_loop self (profile : string) d :
  _handle_template_attributes self profile d =
  handle_template_loop self profile (default [] (template_attributes self)) d.
Proof.
  unfold _handle_template_attributes.
  by destruct (template_attributes self) as [[|]|].
Qed.

(** C1, the claim as stated fails: the [ValueError] that [scope] raises on a
    string without ['@'] is not among the exceptions the renderer catches,
    and leaves [to_internal]. *)
Lemma unscoped_value_makes_to_internal_raise :
  to_internal (H := MakoFragment.engine)
    (mapper [("mail", [("saml", ["email"])]); ("name", [("saml", ["displayName"])])]
            (Some [("domain", [("saml", ["${mail[0] | scope}"])])]))
    "saml" [("email", PList [PStr "alice"]); ("displayName", PList [PStr "Alice"])]
  = Raise ValueError.
Proof. reflexivity. Qed.

Lemma render_attribute_template_nil self (template : string) d :
  _render_attribute_template self template d = Ok []
  ↔ ∃ t, Template template = Ok t ∧ caught_failure (render t d).
Proof.
  unfold _render_attribute_template, caught_failure.
  destruct (Template template) as [t | e]; simpl.
  - split.
    + intros Hnil. exists t. split; [done |].
      destruct (render t d) as [v | e] eqn:Hr.
      * right. right. exists v. split; [done |]. intros s ->.
        injection Hnil as Hnil. apply fmap_nil_inv in Hnil.
        by apply PyStrFacts.split_nonempty in Hnil.
      * destruct e; try done; [by left | right; by left].
    + intros (t' & [= <-] & [-> | [-> | (v & -> & Hv)]]); try done.
      destruct v; try done. by destruct (Hv s).
  - split; [done |]. by intros (t & [=] & _).
Qed.

Lemma render_attribute_template_Raise self (template : string) d (e : exn) :
  _render_attribute_template self template d = Raise e
  ↔ Template template = Raise e
    ∨ ∃ t, Template template = Ok t ∧ render t d = Raise e
           ∧ e ≠ NameError ∧ e ≠ TypeError.
Proof.
  unfold _render_attribute_template.
  destruct (Template template) as [t | e']; simpl.
  - split.
    + intros Hraise. right. exists t. split; [done |].
      destruct (render t d) as [v | e''].
      * by destruct v.
      * destruct e''; try done; by injection Hraise as <-.
    + intros [[=] | (t' & [= <-] & -> & Hname & Htype)]. by destruct e.
  - split.
    + intros [= ->]. by left.
    + intros [[= ->] | (t & [=] & _)]. done.
Qed.

(** The first template that raises decides what the list raises. *)
Lemma render_templates_first_raise self (earlier later : list string)
    (template : string) d (e : exn) :
  Forall (λ t', ∃ values, _render_attribute_template self t' d = Ok values) earlier →
  _render_attribute_template self template d = Raise e →
  render_templates self (earlier ++ template :: later) d = Raise e.
Proof.
  intros Hearlier Hraise.
  induction Hearlier as [|t' rest (values & Hvalues) _ IH]; simpl.
  - by rewrite Hraise.
  - by rewrite Hvalues, IH.
Qed.

Lemma handle_template_loop_app self (profile : string) (tattrs1 tattrs2 : attr_map) d :
  handle_template_loop self profile (tattrs1 ++ tattrs2) d
  = handle_template_loop self profile tattrs1 d
    ≫= handle_template_loop self profile tattrs2.
Proof.
  revert d. induction tattrs1 as [|[name mapping] rest IH]; intros d; simpl; [done |].
  destruct (Dict.get profile mapping) as [names |]; [| apply IH].
  destruct (handle_template_step self name names d) as [d' | e]; simpl; [apply IH | done].
Qed.

(** When every template expression of an attribute yields zero values the
    step leaves the record as it is. *)
Lemma handle_template_step_all_caught self (name : string) (names : list string) d :
  Forall (λ template, PyStr.contains "$" template = true →
                      _render_attribute_template self template d = Ok []) names →
  handle_template_step self name names d = Ok d.
Proof.
  intros Hall.
  assert (Hfiltered : Forall (λ template, _render_attribute_template self template d = Ok [])
                        (filter (λ t, PyStr.contains "$" t = true) names)).
  { apply Forall_forall. intros template [Hdollar Hin]%list_elem_of_filter.
    by apply (proj1 (Forall_forall _ _) Hall template). }
  destruct (render_templates_all_empty self _ d Hfiltered) as (vals & Hvals & Hflat).
  unfold handle_template_step. rewrite Hvals. simpl. rewrite Hflat.
  unfold py_or. simpl.
  destruct (Dict.get name d) as [v |] eqn:Hget; simpl; [| done].
  destruct (truthy v); [| done]. by rewrite DictFacts.set_same.
Qed.

Lemma handle_template_loop_all_caught self (profile : string) (tattrs : attr_map) d :
  (∀ name mapping names template,
     (name, mapping) ∈ tattrs → Dict.get profile mapping = Some names →
     template ∈ names → PyStr.contains "$" template = true →
     _render_attribute_template self template d = Ok []) →
  handle_template_loop self profile tattrs d = Ok d.
Proof.
  induction tattrs as [|[name mapping] rest IH]; intros Hall; simpl; [done |].
  assert (Hrest : handle_template_loop self profile rest d = Ok d).
  { apply IH. intros n m ns t Hin. apply (Hall n m ns t). apply elem_of_cons. by right. }
  destruct (Dict.get profile mapping) as [names |] eqn:Hnames; [| done].
  rewrite handle_template_step_all_caught; [done |].
  apply Forall_forall. intros template Hin Hdollar.
  apply (Hall name mapping names template); try done. apply elem_of_cons. by left.
Qed.

(** C1, amended: a rendering failure that raises [NameError] or [TypeError]
    (an undefined variable, a render result that is not a string) is caught
    by the renderer and counts as zero values for that template, and nothing
    else counts as zero values; when all templates of an attribute fail this
    way the record, and so every other attribute, is left as it was, and
    when all templates of the profile do, [to_internal] returns what the
    first pass built.  Every other exception, as the [ValueError] of
    [scope], is raised again by the renderer, and [to_internal] raises it to
    its caller. *)
Theorem render_failure_caught_or_raised self (profile : string) :
  (∀ template d,
     _render_attribute_template self template d = Ok []
     ↔ ∃ t, Template template = Ok t ∧ caught_failure (render t d))
  ∧ (∀ template d e,
       _render_attribute_template self template d = Raise e
       ↔ Template template = Raise e
         ∨ ∃ t, Template template = Ok t ∧ render t d = Raise e
                ∧ e ≠ NameError ∧ e ≠ TypeError)
  ∧ (∀ name names d,
       Forall (λ template, PyStr.contains "$" template = true →
                           _render_attribute_template self template d = Ok []) names →
       handle_template_step self name names d = Ok d)
  ∧ (∀ name names earlier template later d e,
       filter (λ t, PyStr.contains "$" t = true) names = earlier ++ template :: later →
       Forall (λ t', ∃ values, _render_attribute_template self t' d = Ok values)
              earlier →
       _render_attribute_template self template d = Raise e →
       handle_template_step self name names d = Raise e)
  ∧ (∀ external_dict plain,
       to_internal_loop self profile external_dict (from_internal_attributes self) []
         = Ok plain →
       (∀ tattrs name mapping names template,
          template_attributes self = Some tattrs →
          (name, mapping) ∈ tattrs → Dict.get profile mapping = Some names →
          template ∈ names → PyStr.contains "$" template = true →
          _render_attribute_template self template plain = Ok []) →
       to_internal self profile external_dict = Ok plain)
  ∧ (∀ external_dict plain before name mapping after names earlier template later d e,
       to_internal_loop self profile external_dict (from_internal_attributes self) []
         = Ok plain →
       template_attributes self = Some (before ++ (name, mapping) :: after) →
       handle_template_loop self profile before plain = Ok d →
       Dict.get profile mapping = Some names →
       filter (λ t, PyStr.contains "$" t = true) names = earlier ++ template :: later →
       Forall (λ t', ∃ values, _render_attribute_template self t' d = Ok values)
              earlier →
       _render_attribute_template self template d = Raise e →
       to_internal self profile external_dict = Raise e).
Proof.
  split; [apply render_attribute_template_nil |].
  split; [apply render_attribute_template_Raise |].
  split; [apply handle_template_step_all_caught |].
  split.
  { intros name names earlier template later d e Hfilter Hearlier Hraise.
    unfold handle_template_step. rewrite Hfilter.
    by rewrite (render_templates_first_raise self earlier later template d e). }
  split.
  - intros external_dict plain Hplain Hall. unfold to_internal. rewrite Hplain. simpl.
    rewrite handle_template_attributes_loop.
    apply handle_template_loop_all_caught. intros name mapping names template Hin.
    destruct (template_attributes self) as [tattrs |] eqn:Ht.
    + by apply (Hall tattrs name mapping names template).
    + by apply elem_of_nil in Hin.
  - intros external_dict plain before name mapping after names earlier template later
      d e Hplain Ht Hbefore Hnames Hfilter Hearlier Hraise.
    unfold to_internal. rewrite Hplain. simpl.
    rewrite handle_template_attributes_loop, Ht. simpl.
    rewrite handle_template_loop_app, Hbefore. simpl. rewrite Hnames.
    unfold handle_template_step. rewrite Hfilter.
    by rewrite (render_templates_first_raise self earlier later template d e).
Qed.

Lemma handle_template_step_Raise self (profile name : string) (mapping : profile_map)
    (names : list string) (rest : attr_map) d (e : exn) :
  Dict.get profile mapping = Some names →
  handle_template_step self name names d = Raise e →
  handle_template_loop self profile ((name, mapping) :: rest) d = Raise e.
Proof. intros Hnames Hstep. simpl. by rewrite Hnames, Hstep. Qed.

End templates.

Lemma render_failure_caught_or_raised_witness :
  let self :=
    mapper [("mail", [("saml", ["email"])])]
           (Some [("unit", [("saml", ["${ou[0]}"])]);
                  ("domain", [("saml", ["${uid[0] | scope}"; "${mail[0] | scope}";
                                        "${mail[0]}"])])]) in
  to_internal (H := MakoFragment.engine) self "saml" [("email", PList [PStr "alice"])]
  = Raise ValueError.
Proof.
  intros self.
  apply (proj2 (proj2 (proj2 (proj2 (proj2
           (render_failure_caught_or_raised (H := MakoFragment.engine) self "saml")))))
           [("email", PList [PStr "alice"])] [("mail", PList [PStr "alice"])]
           [("unit", [("saml", ["${ou[0]}"])])] "domain"
           [("saml", ["${uid[0] | scope}"; "${mail[0] | scope}"; "${mail[0]}"])] []
           ["${uid[0] | scope}"; "${mail[0] | scope}"; "${mail[0]}"]
           ["${uid[0] | scope}"] "${mail[0] | scope}" ["${mail[0]}"]
           [("mail", PList [PStr "alice"])] ValueError).
  - reflexivity.
  - reflexivity.
  - reflexivity.
  - reflexivity.
  - reflexivity.
  - apply Forall_singleton. exists []. reflexivity.
  - apply (proj2 (proj1 (proj2
             (render_failure_caught_or_raised (H := MakoFragment.engine) self "saml"))
             "${mail[0] | scope}" [("mail", PList [PStr "alice"])] ValueError)).
    right. exists {| MakoFragment.var := "mail"; MakoFragment.scoped := true |}.
    split; [reflexivity |]. split; [reflexivity |]. split; discriminate.
Defined.

(** ** Template fallback *)

Section fallback.
Context `{Mako}.
Implicit Types (self : AttributeMapper) (d : pydict).

(** The list comprehension renders every template, each against the same
    record, and keeps the outputs in the order of the templates. *)
Lemma render_templates_Forall2 self (templates : list string) d
    (vals : list (list pyval)) :
  render_templates self templates d = Ok vals
  ↔ Forall2 (λ template values, _render_attribute_template self template d = Ok values)
            templates vals.
Proof.
  revert vals. induction templates as [|template rest IH]; intros vals; simpl.
  - split.
    + intros [= <-]. constructor.
    + intros Hnil. by apply Forall2_nil_inv_l in Hnil as ->.
  - split.
    + intros (values & Hvalues & (others & Hothers & [= <-])%bind_Ok)%bind_Ok.
      constructor; [done | by apply IH].
    + intros (values & others & Hvalues & Hothers & ->)%Forall2_cons_inv_l.
      rewrite Hvalues. simpl. apply IH in Hothers. by rewrite Hothers.
Qed.

(** The turn of one template attribute in the loop: the record it meets is
    what the loop made of the attributes before it, and the record the loop
    returns has under its name what its own step decided. *)
Lemma handle_template_loop_turn self (profile : string) (before after : attr_map)
    (name : string) (mapping : profile_map) (names : list string) d res :
  Dict.wf (before ++ (name, mapping) :: after) →
  handle_template_loop self profile (before ++ (name, mapping) :: after) d = Ok res →
  Dict.get profile mapping = Some names →
  ∃ current vals,
    handle_template_loop self profile before d = Ok current
    ∧ Dict.get name current = Dict.get name d
    ∧ Forall2 (λ template values,
                 _render_attribute_template self template current = Ok values)
              (filter (λ t, PyStr.contains "$" t = true) names) vals
    ∧ (concat vals = [] → Dict.get name res = Dict.get name d)
    ∧ (concat vals ≠ [] → Dict.get name res = Some (PList (concat vals))).
Proof.
  intros Hwf Hloop Hnames.
  unfold Dict.wf, Dict.keys in Hwf. rewrite fmap_app, fmap_cons in Hwf. simpl in Hwf.
  apply NoDup_app in Hwf as (_ & Hbefore & Hafter).
  apply NoDup_cons in Hafter as [Hafter _].
  rewrite handle_template_loop_app in Hloop.
  apply bind_Ok in Hloop as (current & Hcurrent & Hloop). simpl in Hloop.
  rewrite Hnames in Hloop. apply bind_Ok in Hloop as (d' & Hstep & Hloop).
  assert (Hmeets : Dict.get name current = Dict.get name d).
  { apply (handle_template_loop_other self profile name before d current); [| done].
    intros Hin. apply (Hbefore name Hin). apply elem_of_cons. by left. }
  pose proof (handle_template_loop_other self profile name after d' res Hafter Hloop)
    as Hkeep.
  apply handle_template_step_Ok in Hstep as (vals & Hvals & Hnil & Hcons).
  exists current, vals. split; [done |]. split; [done |].
  split; [by apply render_templates_Forall2 |]. split.
  - intros Hflat. by rewrite Hkeep, Hnil.
  - intros Hflat. rewrite Hkeep, Hcons by done. apply DictFacts.get_set_eq.
Qed.


End fallback.


(** ** The first pass of [to_internal] *)

Section plain_pass.
Implicit Types (self : AttributeMapper) (d : pydict).

Lemma to_internal_loop_app self (profile : string) (external_dict : pydict)
    (attrs1 attrs2 : attr_map) d :
  to_internal_loop self profile external_dict (attrs1 ++ attrs2) d =
  to_internal_loop self profile external_dict attrs1 d
  ≫= to_internal_loop self profile external_dict attrs2.
Proof.
  revert d. induction attrs1 as [|[name mapping] rest IH]; intros d; simpl; [done |].
  destruct (Dict.get profile mapping) as [names |]; [| apply IH].
  destruct (_collate_attribute_values_by_priority_order self names external_dict)
    as [vals | e]; simpl; [| done].
  destruct vals; apply IH.
Qed.

(** Attributes whose candidates resolve to no value leave the record as it
    is. *)
Lemma to_internal_loop_nothing self (profile : string) (external_dict : pydict)
    (attrs : attr_map) d :
  (∀ name mapping names,
     (name, mapping) ∈ attrs → Dict.get profile mapping = Some names →
     _collate_attribute_values_by_priority_order self names external_dict = Ok []) →
  to_internal_loop self profile external_dict attrs d = Ok d.
Proof.
  induction attrs as [|[name mapping] rest IH]; intros Hnothing; simpl; [done |].
  assert (Hrest : to_internal_loop self profile external_dict rest d = Ok d).
  { apply IH. intros n m ns Hin. apply (Hnothing n). apply elem_of_cons. by right. }
  destruct (Dict.get profile mapping) as [names |] eqn:Hnames; [| done].
  rewrite (Hnothing name mapping names); [done | | done].
  apply elem_of_cons. by left.
Qed.

Lemma to_internal_loop_other self (profile other : string) (external_dict : pydict)
    (attrs : attr_map) d res :
  other ∉ Dict.keys attrs →
  to_internal_loop self profile external_dict attrs d = Ok res →
  Dict.get other res = Dict.get other d.
Proof.
  revert d. induction attrs as [|[name mapping] rest IH]; intros d Hnotin; simpl.
  - by intros [= <-].
  - unfold Dict.keys in Hnotin. simpl in Hnotin.
    apply not_elem_of_cons in Hnotin as [Hne Hnotin].
    destruct (Dict.get profile mapping) as [names |]; [| by apply IH].
    intros (vals & Hvals & Hloop)%bind_Ok.
    destruct vals as [|x vals]; simpl in Hloop.
    + by apply IH.
    + rewrite (IH _ Hnotin Hloop). apply DictFacts.get_set_ne. congruence.
Qed.

(** The value the first pass leaves under a configured attribute. *)
Lemma to_internal_loop_entry self (profile : string) (external_dict : pydict)
    (attrs : attr_map) d res (name : string) (mapping : profile_map)
    (names : list string) :
  Dict.wf attrs →
  to_internal_loop self profile external_dict attrs d = Ok res →
  (name, mapping) ∈ attrs → Dict.get profile mapping = Some names →
  ∃ vals,
    _collate_attribute_values_by_priority_order self names external_dict = Ok vals
    ∧ (vals = [] → Dict.get name res = Dict.get name d)
    ∧ (vals ≠ [] → Dict.get name res = Some (PList vals)).
Proof.
  revert d. induction attrs as [|[name0 mapping0] rest IH]; intros d Hwf Hloop Hin Hnames.
  - by apply elem_of_nil in Hin.
  - unfold Dict.wf, Dict.keys in Hwf. simpl in Hwf.
    apply NoDup_cons in Hwf as [Hfresh Hwf]. simpl in Hloop.
    apply elem_of_cons in Hin as [[= -> ->] | Hin].
    + rewrite Hnames in Hloop. apply bind_Ok in Hloop as (vals & Hvals & Hloop).
      exists vals. split; [done |].
      destruct vals as [|x vals]; simpl in Hloop.
      * split; [| done]. intros _.
        by apply (to_internal_loop_other self profile name0 external_dict rest).
      * split; [done |]. intros _.
        rewrite (to_internal_loop_other self profile name0 external_dict rest _ res
                   Hfresh Hloop).
        apply DictFacts.get_set_eq.
    + assert (Hne : name0 ≠ name).
      { intros ->. apply Hfresh. apply list_elem_of_fmap. by exists (name, mapping). }
      destruct (Dict.get profile mapping0) as [names0 |]; [| by apply (IH d)].
      apply bind_Ok in Hloop as (vals0 & _ & Hloop).
      destruct vals0 as [|x vals0]; simpl in Hloop; [by apply (IH d) |].
      destruct (IH _ Hwf Hloop Hin Hnames) as (vals & Hvals & Hnil & Hcons).
      exists vals. split; [done |]. split; [| done].
      intros Hempty. rewrite (Hnil Hempty). by apply DictFacts.get_set_ne.
Qed.

(** A candidate whose first segment is not a key of the record resolves to
    [None]. *)
Lemma get_nested_first_segment_absent self (nested_key : string) (data : pydict) :
  (∀ first, head (PyStr.split (separator self) nested_key) = Some first →
            Dict.get first data = None) →
  _get_nested_attribute_value self nested_key data = Ok PNone.
Proof.
  unfold _get_nested_attribute_value. intros Habsent.
  destruct (PyStr.split (separator self) nested_key) as [|first rest] eqn:Hsplit.
  - by apply PyStrFacts.split_nonempty in Hsplit.
  - simpl. by rewrite (Habsent first eq_refl).
Qed.

Lemma collate_nothing self (attribute_names : list string) (data : pydict) :
  Forall (λ attr_name, _get_nested_attribute_value self attr_name data = Ok PNone)
         attribute_names →
  _collate_attribute_values_by_priority_order self attribute_names data = Ok [].
Proof.
  unfold _collate_attribute_values_by_priority_order.
  induction 1 as [|attr_name rest Hhead _ IH]; simpl; [done |].
  by rewrite Hhead.
Qed.

End plain_pass.

(** ** Templates that are not there *)

Section no_templates.
Context `{Mako}.
Implicit Types (self : AttributeMapper) (d : pydict).

Lemma filter_no_template (names : list string) :
  Forall (λ t, PyStr.contains "$" t = false) names →
  filter (λ t, PyStr.contains "$" t = true) names = [].
Proof.
  induction 1 as [|t rest Ht _ IH]; [done |].
  rewrite filter_cons_False; [done | by rewrite Ht].
Qed.

Lemma handle_template_step_no_template self (name : string) (names : list string) d :
  Forall (λ t, PyStr.contains "$" t = false) names →
  handle_template_step self name names d = Ok d.
Proof.
  intros Hnames. unfold handle_template_step. rewrite filter_no_template by done.
  simpl. unfold py_or. simpl.
  destruct (Dict.get name d) as [v |] eqn:Hget; simpl; [| done].
  destruct (truthy v); [| done]. by rewrite DictFacts.set_same.
Qed.

(** Without a template expression in the profile the second pass changes
    nothing. *)
Lemma handle_template_loop_no_template self (profile : string) (tattrs : attr_map) d :
  (∀ name mapping names,
     (name, mapping) ∈ tattrs → Dict.get profile mapping = Some names →
     Forall (λ t, PyStr.contains "$" t = false) names) →
  handle_template_loop self profile tattrs d = Ok d.
Proof.
  induction tattrs as [|[name mapping] rest IH]; intros Hnone; simpl; [done |].
  assert (Hrest : handle_template_loop self profile rest d = Ok d).
  { apply IH. intros n m ns Hin. apply (Hnone n). apply elem_of_cons. by right. }
  destruct (Dict.get profile mapping) as [names |] eqn:Hnames; [| done].
  rewrite handle_template_step_no_template; [done |].
  apply (Hnone name mapping); [| done]. apply elem_of_cons. by left.
Qed.

(** Without a template expression for one attribute, the second pass keeps
    that attribute's value. *)
Lemma handle_template_loop_keeps self (profile name : string) (tattrs : attr_map) d res :
  (∀ mapping names,
     (name, mapping) ∈ tattrs → Dict.get profile mapping = Some names →
     Forall (λ t, PyStr.contains "$" t = false) names) →
  handle_template_loop self profile tattrs d = Ok res →
  Dict.get name res = Dict.get name d.
Proof.
  revert d. induction tattrs as [|[name0 mapping0] rest IH]; intros d Hnone; simpl.
  - by intros [= <-].
  - assert (Hrest : ∀ mapping names,
               (name, mapping) ∈ rest → Dict.get profile mapping = Some names →
               Forall (λ t, PyStr.contains "$" t = false) names).
    { intros m ns Hin. apply Hnone. apply elem_of_cons. by right. }
    destruct (Dict.get profile mapping0) as [names0 |] eqn:Hnames0; [| by apply IH].
    intros (d' & Hstep & Hloop)%bind_Ok. rewrite (IH d' Hrest Hloop).
    destruct (decide (name0 = name)) as [-> | Hne].
    + rewrite handle_template_step_no_template in Hstep; [by injection Hstep as <- |].
      apply (Hnone mapping0); [| done]. apply elem_of_cons. by left.
    + by eapply handle_template_step_other.
Qed.

End no_templates.

(** ** Translations of whole records *)

Lemma dict_get_split {V} (k : string) (v : V) (d : list (string * V)) :
  Dict.get k d = Some v →
  ∃ before after, d = before ++ (k, v) :: after ∧ k ∉ Dict.keys before.
Proof.
  induction d as [|[k' v'] d IH]; simpl; [done |].
  destruct (String.eqb_spec k' k) as [-> | Hne].
  - intros [= ->]. exists [], d. split; [done | apply not_elem_of_nil].
  - intros (before & after & -> & Hfresh)%IH.
    exists ((k', v') :: before), after. split; [done |].
    unfold Dict.keys. simpl. apply not_elem_of_cons. split; [congruence | done].
Qed.

(** A name without the separator is looked up directly. *)
Lemma get_nested_flat (self : AttributeMapper) (name : string) (data : pydict) (v : pyval) :
  PyStr.contains (separator self) name = false →
  Dict.get name data = Some v → v ≠ PNone →
  _get_nested_attribute_value self name data = Ok v.
Proof.
  intros Hflat Hget Hv. unfold _get_nested_attribute_value.
  rewrite PyStrFacts.split_absent by done. simpl. rewrite Hget. simpl. by destruct v.
Qed.

(** What [_create_nested_attribute_value] builds is read back by the
    traversal along the same segments. *)
Lemma create_then_get (names : list string) (value : pyval) (nested : pydict) :
  value ≠ PNone →
  _create_nested_attribute_value names value = Ok nested →
  get_keys names (PDict nested) = Ok value.
Proof.
  intros Hvalue. revert nested.
  induction names as [|name rest IH]; intros nested; [done |].
  destruct rest as [|name' rest].
  - intros [= <-]. simpl. rewrite String.eqb_refl. simpl. by destruct value.
  - intros (child & Hchild & [= <-])%bind_Ok.
    change (get_keys (name :: name' :: rest) (PDict [(name, PDict child)]))
      with (py_get (PDict [(name, PDict child)]) name
            ≫= λ d', match d' with
                     | PNone => Ok PNone
                     | _ => get_keys (name' :: rest) d'
                     end).
    simpl py_get. rewrite String.eqb_refl. simpl default.
    exact (IH child Hchild).
Qed.

(** The construction fails only on an empty list of names. *)
Lemma create_nested_total (names : list string) (value : pyval) :
  names ≠ [] → ∃ nested, _create_nested_attribute_value names value = Ok nested.
Proof.
  induction names as [|name rest IH]; [done |]. intros _.
  destruct rest as [|name' rest]; [by eexists |].
  destruct (IH ltac:(done)) as (child & Hchild).
  exists [(name, PDict child)].
  change (_create_nested_attribute_value (name :: name' :: rest) value)
    with (_create_nested_attribute_value (name' :: rest) value
          ≫= λ child_dict, Ok [(name, PDict child_dict)]).
  by rewrite Hchild.
Qed.

Section records.
Context `{Mako}.
Implicit Types (self : AttributeMapper) (d : pydict).

(** C6: nested path round trip.  With ['street'] mapped to
    ['address.street_address'] in a profile, [to_internal] reads the street
    out of the nested record and [from_internal] builds the nested record,
    keyed under the first segment, from the segments after it. *)
Theorem nested_path_round_trip (profile : string) :
  let self := mapper [("street", [(profile, ["address.street_address"])])] None in
  to_internal self profile [("address", PDict [("street_address", PList [PStr "Main St"])])]
  = Ok [("street", PList [PStr "Main St"])]
  ∧ from_internal self profile [("street", PList [PStr "Main St"])]
    = Ok [("address", PDict [("street_address", PList [PStr "Main St"])])].
Proof.
  intros self. split.
  - unfold to_internal. simpl. by rewrite String.eqb_refl.
  - unfold from_internal. simpl. by rewrite String.eqb_refl.
Qed.

(** C7, amended: when the candidate list of [A] in the profile is [[X; Y]],
    the record holds a list under both names, not both empty, and no
    template expression is configured for [A] in the profile, the record
    that [to_internal] returns maps [A] to the values of [X] followed by the
    values of [Y]. *)
Theorem priority_collation self (profile A X Y : string) (mapping : profile_map)
    (external_dict res : pydict) (xs ys : list pyval) :
  Dict.wf (from_internal_attributes self) →
  Dict.get A (from_internal_attributes self) = Some mapping →
  Dict.get profile mapping = Some [X; Y] →
  _get_nested_attribute_value self X external_dict = Ok (PList xs) →
  _get_nested_attribute_value self Y external_dict = Ok (PList ys) →
  xs ++ ys ≠ [] →
  (∀ tattrs tmapping names,
     template_attributes self = Some tattrs →
     (A, tmapping) ∈ tattrs → Dict.get profile tmapping = Some names →
     Forall (λ t, PyStr.contains "$" t = false) names) →
  to_internal self profile external_dict = Ok res →
  Dict.get A res = Some (PList (xs ++ ys)).
Proof.
  intros Hwf HA Hprofile HX HY Hvalues Hplainonly Hres.
  unfold to_internal in Hres. apply bind_Ok in Hres as (plain & Hplain & Hres).
  rewrite handle_template_attributes_loop in Hres.
  rewrite (handle_template_loop_keeps self profile A
             (default [] (template_attributes self)) plain res); [| | exact Hres].
  - apply DictFacts.get_Some_elem_of in HA.
    destruct (to_internal_loop_entry self profile external_dict _ [] plain A mapping
                [X; Y] Hwf Hplain HA Hprofile) as (vals & Hvals & _ & Hcons).
    unfold _collate_attribute_values_by_priority_order in Hvals. simpl in Hvals.
    rewrite HX in Hvals. simpl in Hvals. rewrite HY in Hvals. simpl in Hvals.
    injection Hvals as <-. by apply Hcons.
  - intros tmapping names Hin. destruct (template_attributes self) as [tattrs |] eqn:Ht.
    + by apply (Hplainonly tattrs).
    + by apply elem_of_nil in Hin.
Qed.

(** C5, amended: when [A] is mapped to the single flat name [X] in the
    profile, no other attribute has in that profile a candidate whose first
    path segment is [X], and no template expression is configured for the
    profile, translating [{A: [v]}] out and back gives [{A: [v]}]. *)
Theorem round_trip_aligned self (profile A X : string) (mapping : profile_map) (v : pyval) :
  Dict.wf (from_internal_attributes self) →
  Dict.get A (from_internal_attributes self) = Some mapping →
  Dict.get profile mapping = Some [X] →
  PyStr.contains (separator self) X = false →
  (∀ B bmapping names candidate,
     (B, bmapping) ∈ from_internal_attributes self → B ≠ A →
     Dict.get profile bmapping = Some names → candidate ∈ names →
     head (PyStr.split (separator self) candidate) ≠ Some X) →
  (∀ tattrs name tmapping names,
     template_attributes self = Some tattrs →
     (name, tmapping) ∈ tattrs → Dict.get profile tmapping = Some names →
     Forall (λ t, PyStr.contains "$" t = false) names) →
  from_internal self profile [(A, PList [v])] ≫= to_internal self profile
  = Ok [(A, PList [v])].
Proof.
  intros Hwf HA Hprofile Hflat Hothers Hplainonly.
  assert (Hout : from_internal self profile [(A, PList [v])] = Ok [(X, PList [v])]).
  { unfold from_internal. simpl. rewrite HA, Hprofile, Hflat. simpl.
    by rewrite String.eqb_refl. }
  rewrite Hout. simpl. unfold to_internal.
  destruct (dict_get_split A mapping _ HA) as (before & after & Hattrs & Hbefore).
  assert (Hafter : A ∉ Dict.keys after).
  { unfold Dict.wf, Dict.keys in Hwf. rewrite Hattrs, fmap_app in Hwf.
    apply NoDup_app in Hwf as (_ & _ & Hwf). simpl in Hwf.
    by apply NoDup_cons in Hwf as [? _]. }
  assert (Hnothing : ∀ part, A ∉ Dict.keys part →
             (∀ entry, entry ∈ part → entry ∈ from_internal_attributes self) →
             ∀ d, to_internal_loop self profile [(X, PList [v])] part d = Ok d).
  { intros part Hpart Hsub d. apply to_internal_loop_nothing.
    intros B bmapping names Hin Hnames. apply collate_nothing. apply Forall_forall.
    intros candidate Hcand. apply get_nested_first_segment_absent.
    intros first Hfirst. simpl.
    destruct (String.eqb_spec X first) as [-> | ?]; [| done].
    destruct (Hothers B bmapping names candidate); try done.
    - by apply Hsub.
    - intros ->. apply Hpart. apply list_elem_of_fmap. by exists (A, bmapping). }
  rewrite Hattrs, to_internal_loop_app.
  rewrite Hnothing; [| done |].
  2: { intros entry Hin. rewrite Hattrs. apply elem_of_app. by left. }
  simpl. rewrite Hprofile.
  unfold _collate_attribute_values_by_priority_order. simpl.
  rewrite (get_nested_flat self X _ (PList [v])); [| done | | done].
  2: { simpl. by rewrite String.eqb_refl. }
  simpl. rewrite Hnothing; [| done |].
  2: { intros entry Hin. rewrite Hattrs. apply elem_of_app. right.
       apply elem_of_cons. by right. }
  simpl. rewrite handle_template_attributes_loop.
  apply handle_template_loop_no_template. intros name tmapping names Hin.
  destruct (template_attributes self) as [tattrs |] eqn:Ht.
  - by apply (Hplainonly tattrs name).
  - by apply elem_of_nil in Hin.
Qed.

End records.

(** C5, the claim as stated fails: [to_internal] reads the forward table,
    not the inverse one, so a second attribute that lists the same external
    name is filled as well, although the inverse table sends the name back
    to [A] alone. *)
Lemma round_trip_fills_second_attribute :
  let self := mapper [("uid", [("saml", ["mail"])]); ("email", [("saml", ["mail"])])] None in
  (Dict.get "email" (from_internal_attributes self) ≫= Dict.get "saml") = Some ["mail"]
  ∧ PyStr.contains (separator self) "mail" = false
  ∧ (to_internal_attributes self !! "saml" ≫= (.!! "mail")) = Some "email"
  ∧ template_attributes self = None
  ∧ (from_internal self "saml" [("email", PList [PStr "alice@example.org"])]
     ≫= to_internal (H := MakoFragment.engine) self "saml")
    = Ok [("uid", PList [PStr "alice@example.org"]);
          ("email", PList [PStr "alice@example.org"])].
Proof. repeat split; reflexivity. Qed.

Lemma round_trip_aligned_witness :
  let self := mapper [("mail", [("saml", ["email"])]);
                      ("street", [("saml", ["address.street_address"])])] None in
  (from_internal self "saml" [("mail", PList [PStr "alice@example.org"])]
   ≫= to_internal (H := MakoFragment.engine) self "saml")
  = Ok [("mail", PList [PStr "alice@example.org"])].
Proof.
  intros self.
  apply (round_trip_aligned (H := MakoFragment.engine) self "saml" "mail" "email"
           [("saml", ["email"])] (PStr "alice@example.org")).
  - dict_wf.
  - reflexivity.
  - reflexivity.
  - reflexivity.
  - intros B bmapping names candidate Hin HB Hnames Hcand.
    apply elem_of_cons in Hin as [[= -> ->] | Hin]; [done |].
    apply list_elem_of_singleton in Hin as [= -> ->].
    injection Hnames as <-. apply list_elem_of_singleton in Hcand as ->.
    discriminate.
  - intros tattrs name tmapping names Ht. discriminate Ht.
Defined.

(** C7, the claim as stated fails: a template configured for [A] replaces
    the collated values, and two empty lists leave [A] out of the result. *)
Lemma collated_values_replaced_or_left_out :
  to_internal (H := MakoFragment.engine)
    (mapper [("mail", [("saml", ["email"; "emailAddress"])])]
            (Some [("mail", [("saml", ["${mail[0]}"])])]))
    "saml" [("email", PList [PStr "a@example.org"]);
            ("emailAddress", PList [PStr "b@example.org"])]
  = Ok [("mail", PList [PStr "a@example.org"])]
  ∧ to_internal (H := MakoFragment.engine)
      (mapper [("mail", [("saml", ["email"; "emailAddress"])])] None)
      "saml" [("email", PList []); ("emailAddress", PList [])]
    = Ok [].
Proof. split; reflexivity. Qed.

Lemma priority_collation_witness :
  Dict.get "mail"
    [("mail", PList [PStr "a@example.org"; PStr "b@example.org"; PStr "c@example.org"])]
  = Some (PList ([PStr "a@example.org"] ++ [PStr "b@example.org"; PStr "c@example.org"])).
Proof.
  apply (priority_collation (H := MakoFragment.engine)
           (mapper [("mail", [("saml", ["email"; "contact.emails"])])] None)
           "saml" "mail" "email" "contact.emails"
           [("saml", ["email"; "contact.emails"])]
           [("email", PList [PStr "a@example.org"]);
            ("contact", PDict [("emails", PList [PStr "b@example.org";
                                                  PStr "c@example.org"])])]).
  - dict_wf.
  - reflexivity.
  - reflexivity.
  - reflexivity.
  - reflexivity.
  - discriminate.
  - intros tattrs tmapping names Ht. discriminate Ht.
  - reflexivity.
Defined.

(** * Further properties of the mapper *)

(** ** The inverse table built by [__init__] *)

Section inverse_table.
Implicit Types (table : gmap string (gmap string string)).

Lemma table_store_lookup (profile external internal p e : string) table :
  table_store profile external internal table !! p ≫= (.!! e)
  = if decide (profile = p ∧ external = e) then Some internal
    else table !! p ≫= (.!! e).
Proof.
  unfold table_store. destruct (decide (profile = p)) as [-> | Hp].
  - rewrite lookup_insert_eq. simpl. destruct (decide (external = e)) as [-> | He].
    + rewrite lookup_insert_eq. by rewrite decide_True.
    + rewrite lookup_insert_ne by done. rewrite decide_False by (by intros [_ ?]).
      destruct (table !! p); simpl; [done | apply lookup_empty].
  - rewrite lookup_insert_ne by done. by rewrite decide_False by (by intros [? _]).
Qed.

Lemma init_names_snoc (internal profile external : string) (names : list string) table :
  init_names internal profile (names ++ [external]) table
  = table_store profile external internal (init_names internal profile names table).
Proof. unfold init_names. by rewrite fold_left_app. Qed.

Lemma init_names_lookup (internal profile p e : string) (names : list string) table :
  init_names internal profile names table !! p ≫= (.!! e)
  = if decide (profile = p ∧ e ∈ names) then Some internal
    else table !! p ≫= (.!! e).
Proof.
  induction names as [|external names IH] using rev_ind.
  - rewrite decide_False; [done |]. intros [_ Hin]. by apply elem_of_nil in Hin.
  - rewrite init_names_snoc, table_store_lookup, IH.
    destruct (decide (profile = p ∧ external = e)) as [[-> ->] | Hne].
    + rewrite decide_True; [done |]. split; [done |]. apply elem_of_app. right.
      by apply list_elem_of_singleton.
    + destruct (decide (profile = p ∧ e ∈ names)) as [[-> Hin] | Hnot].
      * rewrite decide_True; [done |]. split; [done |]. apply elem_of_app. by left.
      * rewrite decide_False; [done |]. intros [-> Hin].
        apply elem_of_app in Hin as [Hin | Hin]; [by apply Hnot |].
        apply list_elem_of_singleton in Hin as ->. by apply Hne.
Qed.

(** An entry of the configuration lists an external name under a profile:
    this can be decided. *)
Lemma lists_dec (mappings : profile_map) (p e : string) :
  {∃ names, (p, names) ∈ mappings ∧ e ∈ names}
  + {¬ ∃ names, (p, names) ∈ mappings ∧ e ∈ names}.
Proof.
  induction mappings as [|[profile names] mappings [Hyes | Hno]].
  - right. intros (names & Hin & _). by apply elem_of_nil in Hin.
  - left. destruct Hyes as (names' & Hin & He). exists names'. split; [| done].
    apply elem_of_cons. by right.
  - destruct (decide (profile = p ∧ e ∈ names)) as [[-> He] | Hne].
    + left. exists names. split; [| done]. apply elem_of_cons. by left.
    + right. intros (names' & Hin & He).
      apply elem_of_cons in Hin as [[= -> ->] | Hin]; [by apply Hne |].
      apply Hno. by exists names'.
Qed.

Lemma init_profiles_snoc (internal profile : string) (names : list string)
    (mappings : profile_map) table :
  init_profiles internal (mappings ++ [(profile, names)]) table
  = init_names internal profile names (init_profiles internal mappings table).
Proof. unfold init_profiles. by rewrite fold_left_app. Qed.

Lemma init_profiles_lookup (internal p e : string) (mappings : profile_map) table :
  init_profiles internal mappings table !! p ≫= (.!! e)
  = if lists_dec mappings p e then Some internal else table !! p ≫= (.!! e).
Proof.
  induction mappings as [|[profile names] mappings IH] using rev_ind.
  - destruct (lists_dec [] p e) as [(names & Hin & _) | _]; [| done].
    by apply elem_of_nil in Hin.
  - rewrite init_profiles_snoc, init_names_lookup, IH.
    destruct (lists_dec (mappings ++ [(profile, names)]) p e)
      as [(names' & Hin & He) | Hno].
    + destruct (decide (profile = p ∧ e ∈ names)) as [_ | Hne]; [done |].
      destruct (lists_dec mappings p e) as [_ | Hno]; [done |].
      apply elem_of_app in Hin as [Hin | Hin]; [destruct Hno; by exists names' |].
      apply list_elem_of_singleton in Hin as [= -> ->]. by destruct Hne.
    + rewrite decide_False.
      * destruct (lists_dec mappings p e) as [(names' & Hin & He) | _]; [| done].
        destruct Hno. exists names'. split; [| done]. apply elem_of_app. by left.
      * intros [-> He]. apply Hno. exists names. split; [| done].
        apply elem_of_app. right. by apply list_elem_of_singleton.
Qed.

Lemma init_table_snoc (internal : string) (mappings : profile_map) (attrs : attr_map) :
  init_table (attrs ++ [(internal, mappings)])
  = init_profiles internal mappings (init_table attrs).
Proof. unfold init_table. by rewrite fold_left_app. Qed.

(** Whatever the table answers was configured. *)
Lemma init_table_sound (attrs : attr_map) (p e internal : string) :
  init_table attrs !! p ≫= (.!! e) = Some internal →
  ∃ mappings names, (internal, mappings) ∈ attrs ∧ (p, names) ∈ mappings ∧ e ∈ names.
Proof.
  induction attrs as [|[internal' mappings] attrs IH] using rev_ind.
  - unfold init_table. simpl. by rewrite lookup_empty.
  - rewrite init_table_snoc, init_profiles_lookup.
    destruct (lists_dec mappings p e) as [(names & Hin & He) | _].
    + intros [= ->]. exists mappings, names. split; [| done].
      apply elem_of_app. right. by apply list_elem_of_singleton.
    + intros (m & names & Hin & Hrest)%IH. exists m, names. split; [| done].
      apply elem_of_app. by left.
Qed.

(** The last attribute that lists a name under a profile owns it. *)
Lemma init_table_last (before after : attr_map) (internal : string)
    (mappings : profile_map) (p e : string) :
  (∃ names, (p, names) ∈ mappings ∧ e ∈ names) →
  (∀ other omappings names,
     (other, omappings) ∈ after → (p, names) ∈ omappings → e ∉ names) →
  init_table (before ++ (internal, mappings) :: after) !! p ≫= (.!! e) = Some internal.
Proof.
  intros Hlisted. induction after as [|[other omappings] after IH] using rev_ind;
    intros Hlater.
  - rewrite init_table_snoc, init_profiles_lookup.
    by destruct (lists_dec mappings p e).
  - replace (before ++ (internal, mappings) :: after ++ [(other, omappings)])
      with ((before ++ (internal, mappings) :: after) ++ [(other, omappings)])
      by (by rewrite <- app_assoc).
    rewrite init_table_snoc, init_profiles_lookup.
    destruct (lists_dec omappings p e) as [(names & Hin & He) | _].
    + destruct (Hlater other omappings names); try done.
      apply elem_of_app. right. by apply list_elem_of_singleton.
    + apply IH. intros o om names Hin. apply (Hlater o om names).
      apply elem_of_app. by left.
Qed.

(** A listed name always has an owner. *)
Lemma init_table_complete (attrs : attr_map) (p e internal : string)
    (mappings : profile_map) (names : list string) :
  (internal, mappings) ∈ attrs → (p, names) ∈ mappings → e ∈ names →
  ∃ owner, init_table attrs !! p ≫= (.!! e) = Some owner.
Proof.
  induction attrs as [|[internal' mappings'] attrs IH] using rev_ind; intros Hin Hp He.
  - by apply elem_of_nil in Hin.
  - rewrite init_table_snoc, init_profiles_lookup.
    destruct (lists_dec mappings' p e) as [_ | Hno]; [by eexists |].
    apply elem_of_app in Hin as [Hin | Hin]; [by apply IH |].
    apply list_elem_of_singleton in Hin as [= <- <-]. destruct Hno. by exists names.
Qed.

End inverse_table.

(** X1: in a freshly built mapper, every answer of the inverse table is a
    configured attribute that lists the external name under the profile, and
    every listed external name has an answer. *)
Theorem init_inverse_table (internal_attributes : internal_attributes_arg)
    (self : AttributeMapper) :
  init internal_attributes = Ok self →
  (∀ p e internal,
     to_internal_attributes self !! p ≫= (.!! e) = Some internal →
     ∃ mappings names,
       (internal, mappings) ∈ from_internal_attributes self
       ∧ (p, names) ∈ mappings ∧ e ∈ names)
  ∧ (∀ p e internal mappings names,
       (internal, mappings) ∈ from_internal_attributes self →
       (p, names) ∈ mappings → e ∈ names →
       ∃ owner, to_internal_attributes self !! p ≫= (.!! e) = Some owner).
Proof.
  unfold init. destruct (arg_attributes internal_attributes) as [attrs |]; [| done].
  intros [= <-]. simpl. split.
  - intros p e internal. apply init_table_sound.
  - intros p e internal mappings names. apply init_table_complete.
Qed.

Lemma init_inverse_table_witness :
  ∃ owner,
    to_internal_attributes
      (mapper [("mail", [("saml", ["email"; "emailAddress"])])] None)
      !! "saml" ≫= (.!! "emailAddress") = Some owner.
Proof.
  apply (proj2 (init_inverse_table
                  {| arg_attributes := Some [("mail", [("saml", ["email"; "emailAddress"])])];
                     arg_template_attributes := None |}
                  (mapper [("mail", [("saml", ["email"; "emailAddress"])])] None)
                  eq_refl)
           "saml" "emailAddress" "mail" [("saml", ["email"; "emailAddress"])]
           ["email"; "emailAddress"]).
  - apply list_elem_of_singleton. reflexivity.
  - apply list_elem_of_singleton. reflexivity.
  - apply elem_of_cons. right. apply list_elem_of_singleton. reflexivity.
Defined.

(** X2: when several attributes list the same external name under a
    profile, the inverse table of a freshly built mapper answers with the
    one that comes last in the configuration. *)
Theorem init_last_writer_wins (internal_attributes : internal_attributes_arg)
    (self : AttributeMapper) (before after : attr_map) (internal : string)
    (mappings : profile_map) (names : list string) (p e : string) :
  init internal_attributes = Ok self →
  from_internal_attributes self = before ++ (internal, mappings) :: after →
  (p, names) ∈ mappings → e ∈ names →
  (∀ other omappings onames,
     (other, omappings) ∈ after → (p, onames) ∈ omappings → e ∉ onames) →
  to_internal_attributes self !! p ≫= (.!! e) = Some internal.
Proof.
  unfold init. destruct (arg_attributes internal_attributes) as [attrs |]; [| done].
  intros [= <-]. simpl. intros -> Hp He Hlater.
  apply init_table_last; [by exists names | done].
Qed.

Lemma init_last_writer_wins_witness :
  to_internal_attributes
    (mapper [("uid", [("saml", ["mail"])]); ("email", [("saml", ["mail"])]);
             ("name", [("saml", ["displayName"])])] None)
    !! "saml" ≫= (.!! "mail") = Some "email".
Proof.
  apply (init_last_writer_wins
           {| arg_attributes :=
                Some [("uid", [("saml", ["mail"])]); ("email", [("saml", ["mail"])]);
                      ("name", [("saml", ["displayName"])])];
              arg_template_attributes := None |}
           _ [("uid", [("saml", ["mail"])])] [("name", [("saml", ["displayName"])])]
           "email" [("saml", ["mail"])] ["mail"] "saml" "mail" eq_refl eq_refl).
  - apply list_elem_of_singleton. reflexivity.
  - apply list_elem_of_singleton. reflexivity.
  - intros other omappings onames Hin Hp.
    apply list_elem_of_singleton in Hin as [= -> ->].
    apply list_elem_of_singleton in Hp as [= ->].
    intros Hmail. apply list_elem_of_singleton in Hmail. discriminate Hmail.
Defined.

(** ** More on [to_internal_filter] *)

Lemma to_internal_filter_value (self : AttributeMapper) (attribute_profile : string)
    (external_attribute_names : list string) :
  (to_internal_filter self attribute_profile external_attribute_names).1
  = Ok (elements (filter_names
                    (default ∅ (to_internal_attributes self !! attribute_profile))
                    external_attribute_names)).
Proof.
  unfold to_internal_filter, defaultdict_getitem.
  by destruct (to_internal_attributes self !! attribute_profile).
Qed.

Lemma to_internal_filter_elem (self : AttributeMapper) (attribute_profile : string)
    (external_attribute_names internal_attribute_names : list string) (internal : string) :
  (to_internal_filter self attribute_profile external_attribute_names).1
    = Ok internal_attribute_names →
  internal ∈ internal_attribute_names
  ↔ ∃ external, external ∈ external_attribute_names
                ∧ to_internal_attributes self !! attribute_profile ≫= (.!! external)
                  = Some internal.
Proof.
  rewrite to_internal_filter_value. intros [= <-].
  rewrite elem_of_elements, elem_of_filter_names.
  destruct (to_internal_attributes self !! attribute_profile) as [pm |]; simpl; [done |].
  split; intros (external & _ & Hex); [by rewrite lookup_empty in Hex | done].
Qed.

(** X3: on a freshly built mapper the filter returns only configured
    attributes that list one of the supplied names under the profile, and
    every supplied name that some attribute lists under the profile brings
    its owner into the result. *)
Theorem to_internal_filter_after_init (internal_attributes : internal_attributes_arg)
    (self : AttributeMapper) (attribute_profile : string)
    (external_attribute_names internal_attribute_names : list string) :
  init internal_attributes = Ok self →
  (to_internal_filter self attribute_profile external_attribute_names).1
    = Ok internal_attribute_names →
  (∀ internal,
     internal ∈ internal_attribute_names →
     ∃ mappings names external,
       (internal, mappings) ∈ from_internal_attributes self
       ∧ (attribute_profile, names) ∈ mappings
       ∧ external ∈ names ∧ external ∈ external_attribute_names)
  ∧ (∀ internal mappings names external,
       (internal, mappings) ∈ from_internal_attributes self →
       (attribute_profile, names) ∈ mappings →
       external ∈ names → external ∈ external_attribute_names →
       ∃ owner,
         owner ∈ internal_attribute_names
         ∧ to_internal_attributes self !! attribute_profile ≫= (.!! external)
           = Some owner).
Proof.
  intros Hinit Hfilter.
  unfold init in Hinit.
  destruct (arg_attributes internal_attributes) as [attrs |]; [| done].
  injection Hinit as <-. split.
  - intros internal Hin.
    apply (to_internal_filter_elem _ _ _ _ internal Hfilter) in Hin
      as (external & Hext & Hlookup).
    apply init_table_sound in Hlookup as (mappings & names & Hattr & Hp & He).
    by exists mappings, names, external.
  - intros internal mappings names external Hattr Hp He Hext.
    destruct (init_table_complete attrs attribute_profile external internal mappings
                names Hattr Hp He) as (owner & Howner).
    exists owner. split; [| done].
    apply (to_internal_filter_elem _ _ _ _ owner Hfilter). by exists external.
Qed.

Lemma to_internal_filter_after_init_witness :
  ∃ owner,
    owner ∈ ["mail"]
    ∧ to_internal_attributes
        (mapper [("mail", [("saml", ["email"])]); ("name", [("saml", ["displayName"])])]
                None)
        !! "saml" ≫= (.!! "email") = Some owner.
Proof.
  apply (proj2 (to_internal_filter_after_init
                  {| arg_attributes :=
                       Some [("mail", [("saml", ["email"])]);
                             ("name", [("saml", ["displayName"])])];
                     arg_template_attributes := None |}
                  _ "saml" ["email"; "unknown"] ["mail"] eq_refl eq_refl)
           "mail" [("saml", ["email"])] ["email"] "email").
  - apply elem_of_cons. left. reflexivity.
  - apply list_elem_of_singleton. reflexivity.
  - apply list_elem_of_singleton. reflexivity.
  - apply elem_of_cons. left. reflexivity.
Defined.

(** X4: the entry the filter may add to the inverse table cannot be seen
    through the filter: after any earlier call, for any profile and names,
    a call returns what it would have returned on the untouched mapper, and
    repeating a call for the same profile leaves the mapper as the first
    call left it. *)
Theorem to_internal_filter_calls_independent (self : AttributeMapper)
    (profile1 profile2 : string) (names1 names2 : list string) :
  (to_internal_filter (to_internal_filter self profile1 names1).2 profile2 names2).1
  = (to_internal_filter self profile2 names2).1
  ∧ (to_internal_filter (to_internal_filter self profile1 names1).2 profile1 names2).2
    = (to_internal_filter self profile1 names1).2.
Proof.
  split.
  - rewrite !to_internal_filter_value, to_internal_filter_table. do 3 f_equal.
    destruct (to_internal_attributes self !! profile1) as [pm |] eqn:Hp1; [done |].
    destruct (decide (profile1 = profile2)) as [<- | Hne].
    + by rewrite lookup_insert_eq, Hp1.
    + by rewrite lookup_insert_ne.
  - unfold to_internal_filter at 1. unfold defaultdict_getitem.
    rewrite to_internal_filter_table.
    destruct (to_internal_attributes self !! profile1) as [pm |] eqn:Hp1.
    + rewrite Hp1. unfold to_internal_filter, defaultdict_getitem. rewrite Hp1.
      by destruct self.
    + rewrite lookup_insert_eq. unfold to_internal_filter, defaultdict_getitem.
      rewrite Hp1. done.
Qed.

(** X5: the members of the filter's result depend only on which names are
    supplied, not on their order or on repetitions: two lists with the same
    names give results that are rearrangements of each other. *)
Theorem to_internal_filter_set_of_names (self : AttributeMapper)
    (attribute_profile : string) (names1 names2 : list string) :
  (∀ external, external ∈ names1 ↔ external ∈ names2) →
  ∃ result1 result2,
    (to_internal_filter self attribute_profile names1).1 = Ok result1
    ∧ (to_internal_filter self attribute_profile names2).1 = Ok result2
    ∧ result1 ≡ₚ result2.
Proof.
  intros Hsame. rewrite !to_internal_filter_value. eexists _, _.
  split; [done |]. split; [done |].
  apply NoDup_Permutation; [apply NoDup_elements | apply NoDup_elements |].
  intros internal. rewrite !elem_of_elements, !elem_of_filter_names.
  split; intros (external & Hin & Hmap); exists external; (split; [| done]);
    by apply Hsame.
Qed.

Lemma to_internal_filter_set_of_names_witness :
  let self := mapper [("mail", [("saml", ["email"])]);
                      ("name", [("saml", ["displayName"])])] None in
  ∃ result1 result2,
    (to_internal_filter self "saml" ["email"; "displayName"; "email"]).1 = Ok result1
    ∧ (to_internal_filter self "saml" ["displayName"; "email"]).1 = Ok result2
    ∧ result1 ≡ₚ result2.
Proof.
  intros self. apply (to_internal_filter_set_of_names self "saml").
  intros external. rewrite !elem_of_cons. tauto.
Defined.

(** ** What [to_internal] returns *)

Lemma dict_set_Forall {V} (Q : string * V → Prop) (k : string) (v : V)
    (d : list (string * V)) :
  Forall Q d → Q (k, v) → Forall Q (Dict.set k v d).
Proof.
  intros Hd Hv. induction Hd as [|[k' v'] d Hhead Hd IH]; simpl.
  - by apply Forall_singleton.
  - destruct (String.eqb_spec k' k) as [-> | Hne]; by apply Forall_cons.
Qed.

Lemma dict_get_app_fresh {V} (k : string) (v : V) (before after : list (string * V)) :
  k ∉ Dict.keys before → Dict.get k (before ++ (k, v) :: after) = Some v.
Proof.
  unfold Dict.keys. induction before as [|[k' v'] before IH]; simpl.
  - intros _. by rewrite String.eqb_refl.
  - intros [Hne Hfresh]%not_elem_of_cons.
    destruct (String.eqb_spec k' k) as [-> | _]; [done | by apply IH].
Qed.

(** An invariant of the entries is kept by the first pass when every value
    it stores satisfies it. *)
Lemma to_internal_loop_Forall (Q : string * pyval → Prop) (self : AttributeMapper)
    (profile : string) (external_dict : pydict) (attrs : attr_map) (d res : pydict) :
  (∀ name mapping names x vals,
     (name, mapping) ∈ attrs → Dict.get profile mapping = Some names →
     Q (name, PList (x :: vals))) →
  Forall Q d →
  to_internal_loop self profile external_dict attrs d = Ok res →
  Forall Q res.
Proof.
  revert d. induction attrs as [|[name mapping] rest IH]; intros d Hstore Hd; simpl.
  - by intros [= <-].
  - assert (Hrest : ∀ n m ns x vals,
               (n, m) ∈ rest → Dict.get profile m = Some ns → Q (n, PList (x :: vals))).
    { intros n m ns x vals Hin. apply (Hstore n m ns). apply elem_of_cons. by right. }
    destruct (Dict.get profile mapping) as [names |] eqn:Hnames; [| by apply IH].
    intros (vals & _ & Hloop)%bind_Ok.
    destruct vals as [|x vals]; simpl in Hloop; [by apply (IH d) |].
    apply (IH _ Hrest) in Hloop; [done |]. apply dict_set_Forall; [done |].
    apply (Hstore name mapping names); [| done]. apply elem_of_cons. by left.
Qed.

Lemma collate_loop_only_AttributeError (self : AttributeMapper)
    (attribute_names : list string) (data : pydict) (acc : list pyval) (e : exn) :
  collate_loop self attribute_names data acc = Raise e → e = AttributeError.
Proof.
  revert acc. induction attribute_names as [|attr_name rest IH]; intros acc; simpl;
    [done |].
  intros [Hget | (attr_val & _ & Hrest)]%bind_Raise.
  - by apply get_keys_only_AttributeError in Hget.
  - by apply IH in Hrest.
Qed.

Lemma to_internal_loop_only_AttributeError (self : AttributeMapper) (profile : string)
    (external_dict : pydict) (attrs : attr_map) (d : pydict) (e : exn) :
  to_internal_loop self profile external_dict attrs d = Raise e → e = AttributeError.
Proof.
  revert d. induction attrs as [|[name mapping] rest IH]; intros d; simpl; [done |].
  destruct (Dict.get profile mapping) as [names |]; [| apply IH].
  intros [Hcollate | (vals & _ & Hrest)]%bind_Raise.
  - by apply collate_loop_only_AttributeError in Hcollate.
  - destruct vals; by apply IH in Hrest.
Qed.

(** Looking a flat name up cannot fail. *)
Lemma get_nested_flat_total (self : AttributeMapper) (name : string) (data : pydict) :
  PyStr.contains (separator self) name = false →
  ∃ v, _get_nested_attribute_value self name data = Ok v.
Proof.
  intros Hflat. unfold _get_nested_attribute_value.
  rewrite PyStrFacts.split_absent by done. simpl.
  destruct (default PNone (Dict.get name data)); by eexists.
Qed.

Lemma collate_loop_total (self : AttributeMapper) (attribute_names : list string)
    (data : pydict) (acc : list pyval) :
  Forall (λ name, PyStr.contains (separator self) name = false) attribute_names →
  ∃ vals, collate_loop self attribute_names data acc = Ok vals.
Proof.
  intros Hflat. revert acc.
  induction Hflat as [|attr_name rest Hhead _ IH]; intros acc; simpl; [by eexists |].
  destruct (get_nested_flat_total self attr_name data Hhead) as (v & ->). simpl.
  apply IH.
Qed.

Lemma to_internal_loop_total (self : AttributeMapper) (profile : string)
    (external_dict : pydict) (attrs : attr_map) (d : pydict) :
  (∀ name mapping names,
     (name, mapping) ∈ attrs → Dict.get profile mapping = Some names →
     Forall (λ candidate, PyStr.contains (separator self) candidate = false) names) →
  ∃ res, to_internal_loop self profile external_dict attrs d = Ok res.
Proof.
  revert d. induction attrs as [|[name mapping] rest IH]; intros d Hflat; simpl;
    [by eexists |].
  assert (Hrest : ∀ n m ns,
             (n, m) ∈ rest → Dict.get profile m = Some ns →
             Forall (λ candidate, PyStr.contains (separator self) candidate = false) ns).
  { intros n m ns Hin. apply (Hflat n). apply elem_of_cons. by right. }
  destruct (Dict.get profile mapping) as [names |] eqn:Hnames; [| by apply IH].
  destruct (collate_loop_total self names external_dict []) as (vals & Hvals).
  { apply (Hflat name mapping); [| done]. apply elem_of_cons. by left. }
  unfold _collate_attribute_values_by_priority_order. rewrite Hvals. simpl.
  destruct vals; by apply IH.
Qed.

Section to_internal_result.
Context `{Mako}.
Implicit Types (self : AttributeMapper) (d : pydict).

Lemma handle_template_loop_Forall (Q : string * pyval → Prop) self (profile : string)
    (tattrs : attr_map) d res :
  (∀ name mapping names x vals,
     (name, mapping) ∈ tattrs → Dict.get profile mapping = Some names →
     Q (name, PList (x :: vals))) →
  Forall Q d →
  handle_template_loop self profile tattrs d = Ok res →
  Forall Q res.
Proof.
  revert d. induction tattrs as [|[name mapping] rest IH]; intros d Hstore Hd; simpl.
  - by intros [= <-].
  - assert (Hrest : ∀ n m ns x vals,
               (n, m) ∈ rest → Dict.get profile m = Some ns → Q (n, PList (x :: vals))).
    { intros n m ns x vals Hin. apply (Hstore n m ns). apply elem_of_cons. by right. }
    destruct (Dict.get profile mapping) as [names |] eqn:Hnames; [| by apply IH].
    intros (d' & Hstep & Hloop)%bind_Ok.
    apply (IH _ Hrest) in Hloop; [done |].
    apply handle_template_step_Ok in Hstep as (vals & _ & Hnil & Hcons).
    destruct (concat vals) as [|x flat]; [by rewrite Hnil |].
    rewrite Hcons by done. apply dict_set_Forall; [done |].
    apply (Hstore name mapping names); [| done]. apply elem_of_cons. by left.
Qed.

Lemma to_internal_Forall (Q : string * pyval → Prop) self (profile : string)
    (external_dict res : pydict) :
  (∀ name mapping names x vals,
     (name, mapping) ∈ from_internal_attributes self →
     Dict.get profile mapping = Some names → Q (name, PList (x :: vals))) →
  (∀ tattrs name mapping names x vals,
     template_attributes self = Some tattrs →
     (name, mapping) ∈ tattrs →
     Dict.get profile mapping = Some names → Q (name, PList (x :: vals))) →
  to_internal self profile external_dict = Ok res →
  Forall Q res.
Proof.
  intros Hattrs Htattrs. unfold to_internal.
  intros (plain & Hplain & Hres)%bind_Ok.
  rewrite handle_template_attributes_loop in Hres.
  eapply handle_template_loop_Forall; [| | exact Hres].
  - intros name mapping names x vals Hin.
    destruct (template_attributes self) as [tattrs |] eqn:Ht.
    + by apply (Htattrs tattrs).
    + by apply elem_of_nil in Hin.
  - eapply to_internal_loop_Forall; [exact Hattrs | apply Forall_nil_2 | exact Hplain].
Qed.

(** X6: every value in a record returned by [to_internal] is a non-empty
    list; a key is never present with an empty sequence. *)
Theorem to_internal_values_nonempty self (profile : string) (external_dict res : pydict)
    (name : string) (v : pyval) :
  to_internal self profile external_dict = Ok res →
  (name, v) ∈ res →
  ∃ x vals, v = PList (x :: vals).
Proof.
  intros Hres Hin.
  assert (Hall : Forall (λ entry, ∃ x vals, entry.2 = PList (x :: vals)) res).
  { apply (to_internal_Forall _ self profile external_dict res); [| | done].
    - intros. by eexists _, _.
    - intros. by eexists _, _. }
  by apply (proj1 (Forall_forall _ _) Hall (name, v)).
Qed.

(** X7: a key of a record returned by [to_internal] is an attribute of the
    configuration, plain or template, that has a mapping for the profile. *)
Theorem to_internal_keys_configured self (profile : string) (external_dict res : pydict)
    (name : string) (v : pyval) :
  to_internal self profile external_dict = Ok res →
  (name, v) ∈ res →
  (∃ mapping names,
     (name, mapping) ∈ from_internal_attributes self
     ∧ Dict.get profile mapping = Some names)
  ∨ (∃ tattrs mapping names,
       template_attributes self = Some tattrs
       ∧ (name, mapping) ∈ tattrs ∧ Dict.get profile mapping = Some names).
Proof.
  intros Hres Hin.
  assert (Hall : Forall (λ entry,
             (∃ mapping names,
                (entry.1, mapping) ∈ from_internal_attributes self
                ∧ Dict.get profile mapping = Some names)
             ∨ (∃ tattrs mapping names,
                  template_attributes self = Some tattrs
                  ∧ (entry.1, mapping) ∈ tattrs
                  ∧ Dict.get profile mapping = Some names)) res).
  { apply (to_internal_Forall _ self profile external_dict res); [| | done].
    - intros n mapping names x vals Hattr Hnames. left. by exists mapping, names.
    - intros tattrs n mapping names x vals Ht Hattr Hnames. right.
      by exists tattrs, mapping, names. }
  by apply (proj1 (Forall_forall _ _) Hall (name, v)).
Qed.

(** X8: for an attribute that has no template expression in the profile,
    the returned record holds the collation of its candidates, whatever
    their number, and does not hold the attribute at all when the collation
    is empty. *)
Theorem to_internal_attribute_value self (profile A : string) (mapping : profile_map)
    (names : list string) (external_dict res : pydict) :
  Dict.wf (from_internal_attributes self) →
  Dict.get A (from_internal_attributes self) = Some mapping →
  Dict.get profile mapping = Some names →
  (∀ tattrs tmapping tnames,
     template_attributes self = Some tattrs →
     (A, tmapping) ∈ tattrs → Dict.get profile tmapping = Some tnames →
     Forall (λ t, PyStr.contains "$" t = false) tnames) →
  to_internal self profile external_dict = Ok res →
  ∃ vals,
    _collate_attribute_values_by_priority_order self names external_dict = Ok vals
    ∧ Dict.get A res = match vals with [] => None | _ => Some (PList vals) end.
Proof.
  intros Hwf HA Hnames Hplainonly Hres.
  unfold to_internal in Hres. apply bind_Ok in Hres as (plain & Hplain & Hres).
  rewrite handle_template_attributes_loop in Hres.
  apply DictFacts.get_Some_elem_of in HA.
  destruct (to_internal_loop_entry self profile external_dict _ [] plain A mapping
              names Hwf Hplain HA Hnames) as (vals & Hvals & Hnil & Hcons).
  exists vals. split; [done |].
  rewrite (handle_template_loop_keeps self profile A
             (default [] (template_attributes self)) plain res); [| | exact Hres].
  - destruct vals; [by apply Hnil | by apply Hcons].
  - intros tmapping tnames Hin. destruct (template_attributes self) as [tattrs |] eqn:Ht.
    + by apply (Hplainonly tattrs).
    + by apply elem_of_nil in Hin.
Qed.


End to_internal_result.

(** ** [from_internal] *)

Section from_internal_facts.
Implicit Types (self : AttributeMapper) (d ext : pydict).

Lemma from_internal_loop_app self (profile : string) d (names1 names2 : list string) ext :
  from_internal_loop self profile d (names1 ++ names2) ext
  = from_internal_loop self profile d names1 ext
    ≫= from_internal_loop self profile d names2.
Proof.
  revert ext. induction names1 as [|name rest IH]; intros ext; simpl; [done |].
  destruct (Dict.get name (from_internal_attributes self)) as [mapping |]; [| apply IH].
  destruct (Dict.get profile mapping) as [[|X others] |]; [done | | apply IH].
  destruct (PyStr.contains (separator self) X); [| apply IH].
  destruct (_create_nested_attribute_value _ _) as [nested |]; simpl; [| done].
  destruct (PyStr.split (separator self) X); [done | apply IH].
Qed.

(** The three things one iteration of the loop can do: skip the attribute,
    fail on an empty candidate list, or write under the first segment of the
    first candidate a value from which the candidate's path leads back to
    the attribute's value. *)
Lemma from_internal_step self (profile : string) d (name : string)
    (rest : list string) ext :
  ((Dict.get name (from_internal_attributes self) = None
    ∨ ∃ mapping, Dict.get name (from_internal_attributes self) = Some mapping
                 ∧ Dict.get profile mapping = None)
   ∧ from_internal_loop self profile d (name :: rest) ext
     = from_internal_loop self profile d rest ext)
  ∨ (∃ mapping,
       Dict.get name (from_internal_attributes self) = Some mapping
       ∧ Dict.get profile mapping = Some []
       ∧ from_internal_loop self profile d (name :: rest) ext = Raise IndexError)
  ∨ (∃ mapping X others top segments written,
       Dict.get name (from_internal_attributes self) = Some mapping
       ∧ Dict.get profile mapping = Some (X :: others)
       ∧ PyStr.split (separator self) X = top :: segments
       ∧ from_internal_loop self profile d (name :: rest) ext
         = from_internal_loop self profile d rest (Dict.set top written ext)
       ∧ (default PNone (Dict.get name d) ≠ PNone →
          get_keys segments written = Ok (default PNone (Dict.get name d)))).
Proof.
  simpl.
  destruct (Dict.get name (from_internal_attributes self)) as [mapping |] eqn:Hname;
    [| left; split; [by left | done]].
  destruct (Dict.get profile mapping) as [[|X others] |] eqn:Hprofile.
  - right. left. by exists mapping.
  - right. right.
    destruct (PyStr.contains (separator self) X) eqn:Hsep.
    + destruct (PyStrFacts.split_present _ _ Hsep) as (top & second & segments & Hsplit).
      rewrite Hsplit. simpl tail.
      destruct (create_nested_total (second :: segments)
                  (default PNone (Dict.get name d)) ltac:(done)) as (nested & Hnested).
      rewrite Hnested. simpl.
      exists mapping, X, others, top, (second :: segments), (PDict nested).
      repeat split; try done. intros Hvalue. by apply create_then_get.
    + exists mapping, X, others, X, [], (default PNone (Dict.get name d)).
      repeat split; try done. by apply PyStrFacts.split_absent.
  - left. split; [right; by exists mapping | done].
Qed.

(** The only failure of the loop is an empty candidate list. *)
Lemma from_internal_loop_Raise self (profile : string) d (names : list string) ext
    (e : exn) :
  from_internal_loop self profile d names ext = Raise e
  ↔ e = IndexError
    ∧ ∃ name mapping,
        name ∈ names
        ∧ Dict.get name (from_internal_attributes self) = Some mapping
        ∧ Dict.get profile mapping = Some [].
Proof.
  revert ext. induction names as [|name rest IH]; intros ext.
  - split; [done |]. intros (_ & name & mapping & Hin & _). by apply elem_of_nil in Hin.
  - destruct (from_internal_step self profile d name rest ext)
      as [(Hskip & ->) | [(mapping & Hname & Hempty & ->)
                         | (mapping & X & others & top & segments & written
                            & Hname & Hcands & _ & -> & _)]].
    + rewrite IH. split.
      * intros (-> & n & m & Hin & Hn & Hm). split; [done |]. exists n, m.
        split; [| done]. apply elem_of_cons. by right.
      * intros (-> & n & m & Hin & Hn & Hm). split; [done |]. exists n, m.
        split; [| done]. apply elem_of_cons in Hin as [-> | Hin]; [| done].
        destruct Hskip as [Hnone | (m' & Hsome & Hnone)]; congruence.
    + split.
      * intros [= <-]. split; [done |]. exists name, mapping. split; [| done].
        apply elem_of_cons. by left.
      * by intros (-> & _).
    + rewrite IH. split.
      * intros (-> & n & m & Hin & Hn & Hm). split; [done |]. exists n, m.
        split; [| done]. apply elem_of_cons. by right.
      * intros (-> & n & m & Hin & Hn & Hm). split; [done |]. exists n, m.
        split; [| done]. apply elem_of_cons in Hin as [-> | Hin]; [| done].
        congruence.
Qed.

(** A top-level key that no attribute of the list writes keeps its value. *)
Lemma from_internal_loop_other self (profile : string) d (names : list string)
    ext res (top : string) :
  (∀ name mapping X others,
     name ∈ names →
     Dict.get name (from_internal_attributes self) = Some mapping →
     Dict.get profile mapping = Some (X :: others) →
     head (PyStr.split (separator self) X) ≠ Some top) →
  from_internal_loop self profile d names ext = Ok res →
  Dict.get top res = Dict.get top ext.
Proof.
  revert ext. induction names as [|name rest IH]; intros ext Hother.
  - by intros [= <-].
  - assert (Hrest : ∀ n m X others,
               n ∈ rest → Dict.get n (from_internal_attributes self) = Some m →
               Dict.get profile m = Some (X :: others) →
               head (PyStr.split (separator self) X) ≠ Some top).
    { intros n m X others Hin. apply Hother. apply elem_of_cons. by right. }
    destruct (from_internal_step self profile d name rest ext)
      as [(_ & ->) | [(mapping & _ & _ & ->)
                     | (mapping & X & others & top' & segments & written
                        & Hname & Hcands & Hsplit & -> & _)]].
    + by apply IH.
    + done.
    + intros Hres. rewrite (IH _ Hrest Hres). apply DictFacts.get_set_ne.
      intros ->. apply (Hother name mapping X others); try done.
      * apply elem_of_cons. by left.
      * by rewrite Hsplit.
Qed.


(** X12: in the record [from_internal] returns, the path of an attribute's
    first candidate leads to the attribute's value, provided no attribute
    later in the input writes under the same top-level key (a later one
    replaces the whole nested value: there is no deep merge). *)
Theorem from_internal_read_back self (profile A X : string) (others : list string)
    (mapping : profile_map) (before after : pydict) (v : pyval) ext :
  A ∉ Dict.keys before →
  v ≠ PNone →
  Dict.get A (from_internal_attributes self) = Some mapping →
  Dict.get profile mapping = Some (X :: others) →
  (∀ name nmapping Y nothers,
     name ∈ Dict.keys after →
     Dict.get name (from_internal_attributes self) = Some nmapping →
     Dict.get profile nmapping = Some (Y :: nothers) →
     head (PyStr.split (separator self) Y) ≠ head (PyStr.split (separator self) X)) →
  from_internal self profile (before ++ (A, v) :: after) = Ok ext →
  _get_nested_attribute_value self X ext = Ok v.
Proof.
  intros Hfresh Hv HA Hcands Hlater. unfold from_internal, Dict.keys.
  rewrite fmap_app, fmap_cons, from_internal_loop_app. simpl fst.
  intros (ext1 & _ & Hloop)%bind_Ok.
  destruct (from_internal_step self profile (before ++ (A, v) :: after) A (after.*1) ext1)
    as [([Hnone | (m & Hsome & Hnone)] & _)
       | [(m & Hsome & Hempty & _)
         | (m & X' & others' & top & segments & written
            & Hsome & Hcands' & Hsplit & Hstep & Hback)]]; try congruence.
  rewrite Hstep in Hloop. rewrite dict_get_app_fresh in Hback by done. simpl in Hback.
  assert (X' = X) as -> by congruence.
  assert (Htop : Dict.get top ext = Some written).
  { rewrite (from_internal_loop_other self profile (before ++ (A, v) :: after)
               (after.*1) (Dict.set top written ext1) ext top); [| | exact Hloop].
    - apply DictFacts.get_set_eq.
    - intros name nmapping Y nothers Hin Hn Hy.
      change (Some top) with (head (top :: segments)). rewrite <- Hsplit.
      by apply (Hlater name nmapping Y nothers). }
  unfold _get_nested_attribute_value. rewrite Hsplit. simpl. rewrite Htop. simpl.
  specialize (Hback Hv).
  destruct written; try (by apply Hback).
  destruct segments; simpl in Hback; [by injection Hback as <- | done].
Qed.

(** When no attribute is mapped in the profile the loop writes nothing. *)
Lemma from_internal_loop_unmapped self (profile : string) d (names : list string) ext :
  (∀ name mapping,
     Dict.get name (from_internal_attributes self) = Some mapping →
     Dict.get profile mapping = None) →
  from_internal_loop self profile d names ext = Ok ext.
Proof.
  intros Hunmapped. induction names as [|name rest IH]; simpl; [done |].
  destruct (Dict.get name (from_internal_attributes self)) as [mapping |] eqn:Hname;
    [| done].
  by rewrite (Hunmapped name mapping Hname).
Qed.

End from_internal_facts.


Lemma from_internal_read_back_witness :
  _get_nested_attribute_value
    (mapper [("street", [("oidc", ["address.street_address"])]);
             ("mail", [("oidc", ["email"])])] None)
    "address.street_address"
    [("address", PDict [("street_address", PList [PStr "Main St"])]);
     ("email", PList [PStr "alice@example.org"])]
  = Ok (PList [PStr "Main St"]).
Proof.
  apply (from_internal_read_back
           (mapper [("street", [("oidc", ["address.street_address"])]);
                    ("mail", [("oidc", ["email"])])] None)
           "oidc" "street" "address.street_address" []
           [("oidc", ["address.street_address"])]
           [] [("mail", PList [PStr "alice@example.org"])] (PList [PStr "Main St"])).
  - apply not_elem_of_nil.
  - discriminate.
  - reflexivity.
  - reflexivity.
  - intros name nmapping Y nothers Hin Hname Hy.
    apply list_elem_of_singleton in Hin as ->.
    vm_compute in Hname. injection Hname as <-.
    vm_compute in Hy. injection Hy as <- <-.
    vm_compute. discriminate.
  - reflexivity.
Defined.

(** ** Nested construction and traversal *)

Lemma join_split (sep : ascii) (s : string) :
  PyStr.join sep (PyStr.split sep s) = s.
Proof.
  induction s as [|a s IH]; [done |]. simpl PyStr.split.
  destruct (Ascii.eqb_spec a sep) as [-> | Hne].
  - destruct (PyStr.split sep s) as [|p ps] eqn:Hsplit;
      [by apply PyStrFacts.split_nonempty in Hsplit |].
    change (PyStr.join sep (EmptyString :: p :: ps))
      with (EmptyString +:+ String sep (PyStr.join sep (p :: ps))).
    by rewrite PyStrFacts.append_nil_l, IH.
  - destruct (PyStr.split sep s) as [|h [|q t]] eqn:Hsplit.
    + by apply PyStrFacts.split_nonempty in Hsplit.
    + simpl in *. by rewrite IH.
    + change (PyStr.join sep (String a h :: q :: t))
        with (String a h +:+ String sep (PyStr.join sep (q :: t))).
      rewrite PyStrFacts.append_cons. f_equal. exact IH.
Qed.

Lemma split_pieces_clean (sep : ascii) (s : string) :
  Forall (λ piece, PyStr.contains sep piece = false) (PyStr.split sep s).
Proof.
  induction s as [|a s IH]; simpl; [by apply Forall_singleton |].
  destruct (Ascii.eqb a sep) eqn:Ha; [by apply Forall_cons |].
  destruct (PyStr.split sep s) as [|h t]; [apply Forall_singleton; simpl; by rewrite Ha |].
  apply Forall_cons in IH as [Hh Ht]. apply Forall_cons. split; [| done].
  simpl. by rewrite Ha.
Qed.

(** X13: construction and traversal are inverse to each other: for a
    non-empty list of segments that do not hold the separator, and a value
    other than [None], the mapping built from the segments leads, along the
    dotted path of those segments, back to the value. *)
Theorem create_get_round_trip (self : AttributeMapper) (names : list string)
    (value : pyval) :
  names ≠ [] →
  Forall (λ name, PyStr.contains (separator self) name = false) names →
  value ≠ PNone →
  ∃ nested,
    _create_nested_attribute_value names value = Ok nested
    ∧ _get_nested_attribute_value self (PyStr.join (separator self) names) nested
      = Ok value.
Proof.
  intros Hnames Hclean Hvalue.
  destruct (create_nested_total names value Hnames) as (nested & Hnested).
  exists nested. split; [done |]. unfold _get_nested_attribute_value.
  rewrite PyStrFacts.split_join by done. by apply create_then_get.
Qed.

Lemma create_get_round_trip_witness :
  ∃ nested,
    _create_nested_attribute_value ["address"; "home"; "street"] (PList [PStr "Main St"])
      = Ok nested
    ∧ _get_nested_attribute_value (mapper [] None) "address.home.street" nested
      = Ok (PList [PStr "Main St"]).
Proof.
  apply (create_get_round_trip (mapper [] None) ["address"; "home"; "street"]
           (PList [PStr "Main St"])).
  - discriminate.
  - repeat constructor.
  - discriminate.
Defined.

(** ** Rendered values *)

Section rendered.
Context `{Mako}.
Implicit Types (self : AttributeMapper) (d : pydict).

Lemma render_attribute_template_str self (template : string) (t : mako_template) d
    (s : string) :
  Template template = Ok t → render t d = Ok (PStr s) →
  _render_attribute_template self template d
  = Ok (PStr <$> PyStr.split (multivalue_separator self) s).
Proof.
  intros Ht Hs. unfold _render_attribute_template. rewrite Ht. simpl. by rewrite Hs.
Qed.

(** The values of every template are part of the flattened sequence. *)
Lemma render_templates_elem self (templates : list string) d (vals : list (list pyval))
    (template : string) (values : list pyval) (v : pyval) :
  render_templates self templates d = Ok vals →
  template ∈ templates →
  _render_attribute_template self template d = Ok values →
  v ∈ values → v ∈ concat vals.
Proof.
  revert vals. induction templates as [|t rest IH]; intros vals; simpl.
  - intros _ Hin. by apply elem_of_nil in Hin.
  - intros (vs & Hvs & (others & Hothers & [= <-])%bind_Ok)%bind_Ok Hin Hvalues Hv.
    simpl. apply elem_of_app.
    apply elem_of_cons in Hin as [-> | Hin].
    + left. congruence.
    + right. by apply (IH others).
Qed.

(** X14: a template that renders to a string gives at least one value; the
    values are strings without the multi-value separator, and joined with
    the separator they are the rendered text.  In particular an empty
    rendering gives the one value [""], not zero values. *)
Theorem render_values_join_back self (template : string) (t : mako_template) d
    (s : string) :
  Template template = Ok t → render t d = Ok (PStr s) →
  ∃ first pieces,
    _render_attribute_template self template d = Ok (PStr <$> first :: pieces)
    ∧ PyStr.join (multivalue_separator self) (first :: pieces) = s
    ∧ Forall (λ piece, PyStr.contains (multivalue_separator self) piece = false)
             (first :: pieces).
Proof.
  intros Ht Hs. rewrite (render_attribute_template_str self template t d s Ht Hs).
  pose proof (join_split (multivalue_separator self) s) as Hjoin.
  pose proof (split_pieces_clean (multivalue_separator self) s) as Hclean.
  destruct (PyStr.split (multivalue_separator self) s) as [|first pieces] eqn:Hsplit;
    [by apply PyStrFacts.split_nonempty in Hsplit |].
  by exists first, pieces.
Qed.


(** X9: for a profile in which no attribute, plain or template, has a
    mapping, both translations return the empty record, whatever the
    input. *)
Theorem unknown_profile_empty_records self (profile : string) :
  (∀ name mapping,
     (name, mapping) ∈ from_internal_attributes self → Dict.get profile mapping = None) →
  (∀ tattrs name mapping,
     template_attributes self = Some tattrs → (name, mapping) ∈ tattrs →
     Dict.get profile mapping = None) →
  (∀ external_dict, to_internal self profile external_dict = Ok [])
  ∧ (∀ internal_dict, from_internal self profile internal_dict = Ok []).
Proof.
  intros Hattrs Htattrs. split.
  - intros external_dict. unfold to_internal.
    rewrite to_internal_loop_nothing.
    + simpl. rewrite handle_template_attributes_loop.
      apply handle_template_loop_no_template. intros name mapping names Hin Hnames.
      destruct (template_attributes self) as [tattrs |] eqn:Ht.
      * by rewrite (Htattrs tattrs name mapping) in Hnames.
      * by apply elem_of_nil in Hin.
    + intros name mapping names Hin Hnames. by rewrite (Hattrs name mapping) in Hnames.
  - intros internal_dict. apply from_internal_loop_unmapped.
    intros name mapping Hname. apply (Hattrs name).
    by apply DictFacts.get_Some_elem_of.
Qed.

End rendered.

Lemma render_values_join_back_witness :
  ∃ first pieces,
    _render_attribute_template (H := MakoFragment.engine) (mapper [] None)
      "${affiliation[0]}" [("affiliation", PList [PStr "staff;member"])]
    = Ok (PStr <$> first :: pieces)
    ∧ PyStr.join ";" (first :: pieces) = "staff;member"
    ∧ Forall (λ piece, PyStr.contains ";" piece = false) (first :: pieces).
Proof.
  apply (render_values_join_back (H := MakoFragment.engine) (mapper [] None)
           "${affiliation[0]}"
           {| MakoFragment.var := "affiliation"; MakoFragment.scoped := false |}
           [("affiliation", PList [PStr "staff;member"])] "staff;member");
    reflexivity.
Defined.


Lemma unknown_profile_empty_records_witness :
  to_internal (H := MakoFragment.engine)
    (mapper [("mail", [("saml", ["email"])])]
            (Some [("domain", [("saml", ["${mail[0] | scope}"])])]))
    "oidc" [("email", PList [PStr "alice@example.org"])] = Ok [].
Proof.
  apply (proj1 (unknown_profile_empty_records (H := MakoFragment.engine)
                  (mapper [("mail", [("saml", ["email"])])]
                          (Some [("domain", [("saml", ["${mail[0] | scope}"])])]))
                  "oidc"
                  ltac:(intros name mapping Hin;
                        apply list_elem_of_singleton in Hin as [= -> ->]; reflexivity)
                  ltac:(intros tattrs name mapping [= <-] Hin;
                        apply list_elem_of_singleton in Hin as [= -> ->]; reflexivity))).
Defined.

Lemma to_internal_values_nonempty_witness :
  ∃ x vals, PList [PStr "alice@example.org"; PStr "al@example.org"] = PList (x :: vals).
Proof.
  apply (to_internal_values_nonempty (H := MakoFragment.engine)
           (mapper [("mail", [("saml", ["email"; "emailAddress"])]);
                    ("name", [("saml", ["displayName"])])] None)
           "saml"
           [("email", PList [PStr "alice@example.org"]);
            ("emailAddress", PStr "al@example.org"); ("displayName", PStr "")]
           [("mail", PList [PStr "alice@example.org"; PStr "al@example.org"])]
           "mail").
  - reflexivity.
  - apply list_elem_of_singleton. reflexivity.
Defined.

Lemma to_internal_keys_configured_witness :
  (∃ mapping names,
     ("domain", mapping) ∈ [("mail", [("saml", ["email"])])]
     ∧ Dict.get "saml" mapping = Some names)
  ∨ (∃ tattrs mapping names,
       Some [("domain", [("saml", ["${mail[0] | scope}"])])] = Some tattrs
       ∧ ("domain", mapping) ∈ tattrs ∧ Dict.get "saml" mapping = Some names).
Proof.
  apply (to_internal_keys_configured (H := MakoFragment.engine)
           (mapper [("mail", [("saml", ["email"])])]
                   (Some [("domain", [("saml", ["${mail[0] | scope}"])])]))
           "saml" [("email", PList [PStr "alice@example.org"]); ("uid", PStr "alice")]
           [("mail", PList [PStr "alice@example.org"]);
            ("domain", PList [PStr "example.org"])]
           "domain" (PList [PStr "example.org"])).
  - reflexivity.
  - apply elem_of_cons. right. apply list_elem_of_singleton. reflexivity.
Defined.

Lemma to_internal_attribute_value_witness :
  ∃ vals,
    _collate_attribute_values_by_priority_order
      (mapper [("mail", [("saml", ["email"; "emailAddress"; "contact.mail"])])] None)
      ["email"; "emailAddress"; "contact.mail"]
      [("emailAddress", PList [PStr "al@example.org"]);
       ("contact", PDict [("mail", PStr "alice@example.org")])]
    = Ok vals
    ∧ Dict.get "mail" [("mail", PList [PStr "al@example.org"; PStr "alice@example.org"])]
      = match vals with [] => None | _ => Some (PList vals) end.
Proof.
  apply (to_internal_attribute_value (H := MakoFragment.engine)
           (mapper [("mail", [("saml", ["email"; "emailAddress"; "contact.mail"])])] None)
           "saml" "mail" [("saml", ["email"; "emailAddress"; "contact.mail"])]
           ["email"; "emailAddress"; "contact.mail"]
           [("emailAddress", PList [PStr "al@example.org"]);
            ("contact", PDict [("mail", PStr "alice@example.org")])]
           [("mail", PList [PStr "al@example.org"; PStr "alice@example.org"])]).
  - dict_wf.
  - reflexivity.
  - reflexivity.
  - intros tattrs tmapping tnames Ht. discriminate Ht.
  - reflexivity.
Defined.


(** X16: on a freshly built mapper, filtering for a profile under which some
    attribute lists at least one external name leaves the mapper exactly as
    it was. *)
Theorem to_internal_filter_configured_profile
    (internal_attributes : internal_attributes_arg) (self : AttributeMapper)
    (attribute_profile internal external : string) (mappings : profile_map)
    (names external_attribute_names : list string) :
  init internal_attributes = Ok self →
  (internal, mappings) ∈ from_internal_attributes self →
  (attribute_profile, names) ∈ mappings → external ∈ names →
  (to_internal_filter self attribute_profile external_attribute_names).2 = self.
Proof.
  unfold init. destruct (arg_attributes internal_attributes) as [attrs |]; [| done].
  intros [= <-]. simpl. intros Hattr Hp He.
  destruct (init_table_complete attrs attribute_profile external internal mappings names
              Hattr Hp He) as (owner & Howner).
  unfold to_internal_filter, defaultdict_getitem. simpl.
  by destruct (init_table attrs !! attribute_profile).
Qed.

Lemma to_internal_filter_configured_profile_witness :
  (to_internal_filter (mapper [("mail", [("saml", ["email"])])] None) "saml"
     ["email"; "unknown"]).2
  = mapper [("mail", [("saml", ["email"])])] None.
Proof.
  apply (to_internal_filter_configured_profile
           {| arg_attributes := Some [("mail", [("saml", ["email"])])];
              arg_template_attributes := None |}
           _ "saml" "mail" "email" [("saml", ["email"])] ["email"] ["email"; "unknown"]
           eq_refl).
  - apply list_elem_of_singleton. reflexivity.
  - apply list_elem_of_singleton. reflexivity.
  - apply list_elem_of_singleton. reflexivity.
Defined.
